(** * claude-code-discord: the session supervisor, verified against its source

    A shallow embedding of the JSON-streaming process manager (the
    [ClaudeSession] class with [send], [handleJsonLine], [shortenPath] and
    [kill], and the registry functions around the [sessions] map), of the
    PTY version's registry, of the output formatter's [splitMessage] and of
    the throttled reply of [DiscordBot.handleMessage], followed by the
    properties established about them.

    JavaScript strings are sequences of UTF-16 code units; they are kept as
    lists of code units so that [length], [split], [substring] and
    concatenation are the list operations. What belongs to the runtime and
    not to the repository is either modelled after its specification
    ([Buffer.prototype.toString], the string methods, truthiness, [+]) or
    taken as given ([JSON.parse], through the class [Runtime]). Part I holds
    the definitions, Part II the lemmas and theorems. *)

From Stdlib Require Import ZArith NArith Lia List Bool String Ascii.
From Stdlib.Strings Require Import Byte.
From stdpp Require Import base gmap list.
Import ListNotations.

Set Default Proof Using "Type".
Set Warnings "-register-all".

(* ===================================================================== *)
(** * Part I. The model                                                   *)
(* ===================================================================== *)

(** ** JavaScript strings *)

Abbreviation jstring := (list N).

(** A source literal, code unit by code unit. *)
Fixpoint lit (s : string) : jstring :=
  match s with
  | EmptyString => []
  | String a s' => N_of_ascii a :: lit s'
  end.

Definition NL : N := 10.
Definition SP : N := 32.

Definition str_eqb (a b : jstring) : bool := bool_decide (a = b).

(** [WhiteSpace] and [LineTerminator] code units, as stripped by
    [String.prototype.trim] and [trimStart]. *)
Definition is_js_space (c : N) : bool :=
  ((9 <=? c) && (c <=? 13) || (c =? 32) || (c =? 160) || (c =? 5760)
   || (8192 <=? c) && (c <=? 8202) || (c =? 8232) || (c =? 8233)
   || (c =? 8239) || (c =? 8287) || (c =? 12288) || (c =? 65279))%N.

Fixpoint trimStart (s : jstring) : jstring :=
  match s with
  | c :: s' => if is_js_space c then trimStart s' else s
  | [] => []
  end.

Definition trimEnd (s : jstring) : jstring := rev (trimStart (rev s)).

Definition trim (s : jstring) : jstring := trimEnd (trimStart s).

(** [s.split(sep)] for a one-unit separator: never the empty array. *)
Fixpoint split (sep : N) (s : jstring) : list jstring :=
  match s with
  | [] => [[]]
  | c :: s' =>
      if (c =? sep)%N then [] :: split sep s'
      else match split sep s' with
           | l :: ls => (c :: l) :: ls
           | [] => [[c]]
           end
  end.

(** [parts.join(sep)]. *)
Fixpoint join (sep : jstring) (parts : list jstring) : jstring :=
  match parts with
  | [] => []
  | [p] => p
  | p :: ps => p ++ sep ++ join sep ps
  end.

(** [s.substring(a, b)]: both ends clamped to [0, length], swapped when out
    of order. *)
Definition clamp (len : nat) (i : Z) : nat := Nat.min (Z.to_nat i) len.

Definition substring (s : jstring) (a b : Z) : jstring :=
  let a' := clamp (length s) a in
  let b' := clamp (length s) b in
  take (Nat.max a' b' - Nat.min a' b') (drop (Nat.min a' b') s).

(** [s.substring(a)]. *)
Definition substring_from (s : jstring) (a : Z) : jstring :=
  substring s a (Z.of_nat (length s)).

(** [s.lastIndexOf(c, fromIndex)] for a one-unit search string: the largest
    index at most [fromIndex] (clamped below at 0) holding [c], or -1. *)
Fixpoint lastIndexOf_at (c : N) (s : jstring) (i fromIndex : Z) : Z :=
  match s with
  | [] => (-1)%Z
  | x :: s' =>
      let later := lastIndexOf_at c s' (i + 1)%Z fromIndex in
      if (0 <=? later)%Z then later
      else if (x =? c)%N && (i <=? fromIndex)%Z then i else (-1)%Z
  end.

Definition lastIndexOf (s : jstring) (c : N) (fromIndex : Z) : Z :=
  lastIndexOf_at c s 0%Z (Z.max 0 fromIndex).

(** ** utils/formatter.js: splitMessage *)

Definition MAX_MESSAGE_LENGTH : Z := 2000.

(** The [while (remaining.length > 0)] loop. Each unit of [fuel] pays for one
    iteration; the loop itself needs not terminate ([maxLength = 0] on text
    without leading white space spins), so running out of fuel is [None].
    [splitIndex < maxLength * 0.5] is [2 * splitIndex < maxLength] on
    integers. *)
Fixpoint splitLoop (fuel : nat) (maxLength : Z) (remaining : jstring)
    (chunks : list jstring) : option (list jstring) :=
  match fuel with
  | O => None
  | S fuel' =>
      if (0 <? Z.of_nat (length remaining))%Z then
        if (Z.of_nat (length remaining) <=? maxLength)%Z then
          Some (chunks ++ [remaining])
        else
          let splitIndex := lastIndexOf remaining NL maxLength in
          let splitIndex :=
            if (splitIndex =? -1)%Z || (2 * splitIndex <? maxLength)%Z
            then lastIndexOf remaining SP maxLength else splitIndex in
          let splitIndex :=
            if (splitIndex =? -1)%Z || (2 * splitIndex <? maxLength)%Z
            then maxLength else splitIndex in
          splitLoop fuel' maxLength
            (trimStart (substring_from remaining splitIndex))
            (chunks ++ [substring remaining 0 splitIndex])
      else Some chunks
  end.

Definition splitMessage (fuel : nat) (content : jstring) (maxLength : Z)
    : option (list jstring) :=
  if (Z.of_nat (length content) <=? maxLength)%Z then Some [content]
  else splitLoop fuel maxLength content [].

(** ** JSON values as the stream handler observes them

    [JSON.parse] yields null, booleans, numbers, strings, arrays and objects;
    reading a missing property yields [undefined]. The handler never computes
    with a number: it only tests one for truthiness, so a number carries
    whether it is nonzero, next to the literal it was read from. *)
Inductive jsval : Type :=
| JUndefined
| JNull
| JBool (b : bool)
| JNum (nonzero : bool) (literal : jstring)
| JStr (s : jstring)
| JArr (elems : list jsval)
| JObj (fields : list (jstring * jsval)).

(** [!!v]. *)
Definition truthy (v : jsval) : bool :=
  match v with
  | JUndefined | JNull => false
  | JBool b => b
  | JNum nz _ => nz
  | JStr s => negb (str_eqb s [])
  | JArr _ | JObj _ => true
  end.

(** [a || b]. *)
Definition js_or (a b : jsval) : jsval := if truthy a then a else b.

(** [v === 'literal']. *)
Definition js_is (v : jsval) (s : string) : bool :=
  match v with
  | JStr x => str_eqb x (lit s)
  | _ => false
  end.

(** The last binding of a key wins, as in an object built by [JSON.parse]. *)
Fixpoint field (k : jstring) (fields : list (jstring * jsval)) : jsval :=
  match fields with
  | [] => JUndefined
  | (k', v) :: rest =>
      match field k rest with
      | JUndefined => if str_eqb k' k then v else JUndefined
      | later => later
      end
  end.

(** [v.k] for the property names this module reads ([type], [subtype],
    [session_id], [message], [content], [text], [thinking], [name], [input],
    [file_path], [command], [content_block], [delta], [result]): none of them
    is inherited, so strings, arrays, numbers and booleans answer
    [undefined]. On [null] and [undefined] the read throws; see [read]. *)
Definition prop (v : jsval) (k : string) : jsval :=
  match v with
  | JObj fields => field (lit k) fields
  | _ => JUndefined
  end.

(** [ToString], where it needs no number formatting: [None] stands for a
    string the model does not compute (a number would have to be printed). *)
Fixpoint to_string (v : jsval) : option jstring :=
  match v with
  | JUndefined => Some (lit "undefined")
  | JNull => Some (lit "null")
  | JBool true => Some (lit "true")
  | JBool false => Some (lit "false")
  | JNum _ _ => None
  | JStr s => Some s
  | JObj _ => Some (lit "[object Object]")
  | JArr elems =>
      (* Array.prototype.join(','): null and undefined print as '' *)
      (fix elems_to_string (l : list jsval) : option jstring :=
         match l with
         | [] => Some []
         | x :: rest =>
             let sx := match x with
                       | JUndefined | JNull => Some []
                       | _ => to_string x
                       end in
             match sx, rest with
             | Some a, [] => Some a
             | Some a, _ :: _ =>
                 match elems_to_string rest with
                 | Some b => Some (a ++ lit "," ++ b)
                 | None => None
                 end
             | None, _ => None
             end
         end) elems
  end.

(** [ToPrimitive]: arrays and plain objects turn into their strings. *)
Definition to_primitive (v : jsval) : option jsval :=
  match v with
  | JArr _ | JObj _ => JStr <$> to_string v
  | _ => Some v
  end.

Definition is_string (v : jsval) : bool :=
  match v with JStr _ => true | _ => false end.

(** [a + b]: concatenation as soon as one primitive operand is a string;
    [None] where the sum is numeric or prints a number. *)
Definition js_add (a b : jsval) : option jsval :=
  match to_primitive a, to_primitive b with
  | Some pa, Some pb =>
      if is_string pa || is_string pb then
        match to_string pa, to_string pb with
        | Some sa, Some sb => Some (JStr (sa ++ sb))
        | _, _ => None
        end
      else None
  | _, _ => None
  end.

(** ** ClaudeSession (JSON streaming version) *)

(** The object's fields. Handles of the runtime (the child process, the
    timer, the promise's resolve and reject functions) are numbers the
    runtime hands out; [None] is [null]. *)
Record ClaudeSession : Type := {
  sessionId : jsval;
  workingDir : jsval;
  timeout : Z;
  process : option nat;
  isProcessing : bool;
  pendingResolve : option nat;
  pendingReject : option nat;
  currentOutput : jsval;
  timeoutId : option nat
}.

Definition set_sessionId (v : jsval) (s : ClaudeSession) : ClaudeSession :=
  {| sessionId := v; workingDir := workingDir s; timeout := timeout s;
     process := process s; isProcessing := isProcessing s;
     pendingResolve := pendingResolve s; pendingReject := pendingReject s;
     currentOutput := currentOutput s; timeoutId := timeoutId s |}.

Definition set_workingDir (v : jsval) (s : ClaudeSession) : ClaudeSession :=
  {| sessionId := sessionId s; workingDir := v; timeout := timeout s;
     process := process s; isProcessing := isProcessing s;
     pendingResolve := pendingResolve s; pendingReject := pendingReject s;
     currentOutput := currentOutput s; timeoutId := timeoutId s |}.

Definition set_process (v : option nat) (s : ClaudeSession) : ClaudeSession :=
  {| sessionId := sessionId s; workingDir := workingDir s; timeout := timeout s;
     process := v; isProcessing := isProcessing s;
     pendingResolve := pendingResolve s; pendingReject := pendingReject s;
     currentOutput := currentOutput s; timeoutId := timeoutId s |}.

Definition set_isProcessing (v : bool) (s : ClaudeSession) : ClaudeSession :=
  {| sessionId := sessionId s; workingDir := workingDir s; timeout := timeout s;
     process := process s; isProcessing := v;
     pendingResolve := pendingResolve s; pendingReject := pendingReject s;
     currentOutput := currentOutput s; timeoutId := timeoutId s |}.

Definition set_pending (res rej : option nat) (s : ClaudeSession)
    : ClaudeSession :=
  {| sessionId := sessionId s; workingDir := workingDir s; timeout := timeout s;
     process := process s; isProcessing := isProcessing s;
     pendingResolve := res; pendingReject := rej;
     currentOutput := currentOutput s; timeoutId := timeoutId s |}.

Definition set_currentOutput (v : jsval) (s : ClaudeSession) : ClaudeSession :=
  {| sessionId := sessionId s; workingDir := workingDir s; timeout := timeout s;
     process := process s; isProcessing := isProcessing s;
     pendingResolve := pendingResolve s; pendingReject := pendingReject s;
     currentOutput := v; timeoutId := timeoutId s |}.

Definition set_timeoutId (v : option nat) (s : ClaudeSession) : ClaudeSession :=
  {| sessionId := sessionId s; workingDir := workingDir s; timeout := timeout s;
     process := process s; isProcessing := isProcessing s;
     pendingResolve := pendingResolve s; pendingReject := pendingReject s;
     currentOutput := currentOutput s; timeoutId := v |}.

(** [constructor(options = {})]; [cwd] is [process.cwd()]. *)
Record session_options : Type := {
  opt_sessionId : jsval;
  opt_workingDir : jsval;
  opt_timeout : option Z
}.

Definition no_options : session_options :=
  {| opt_sessionId := JUndefined; opt_workingDir := JUndefined;
     opt_timeout := None |}.

Definition new_ClaudeSession (cwd : jstring) (options : session_options)
    : ClaudeSession :=
  {| sessionId := js_or (opt_sessionId options) JNull;
     workingDir := js_or (opt_workingDir options) (JStr cwd);
     timeout := match opt_timeout options with
                | Some t => if (t =? 0)%Z then 300000%Z else t
                | None => 300000%Z
                end;
     process := None;
     isProcessing := false;
     pendingResolve := None;
     pendingReject := None;
     currentOutput := JStr [];
     timeoutId := None |}.

(** What the session emits to its listeners. The exception caught by
    [handleJsonLine] is kept by its kind; the engine's message text is not
    modelled. *)
Inductive jserror : Type := SyntaxError | TypeError.

Inductive event : Type :=
| E_session (id : jsval)
| E_init (data : jsval)
| E_text (text : jsval)
| E_thinking (thinking : jsval)
| E_tool_use (name input status : jsval)
| E_status (status : jsval)
| E_result (data : jsval)
| E_event (data : jsval)
| E_parse_error (line : jstring) (error : jserror)
| E_stderr (text : jstring).

(** ** The handler monad

    [handleJsonLine] mutates [this] and emits events; an exception thrown in
    the middle of the [switch] keeps what was done before it. A computation
    therefore threads the object and the events emitted so far, and
    completes normally, by a throw, or leaves the model ([Beyond]: a string
    or a sum that would need a number formatted or added). *)
Record hstate : Type := {
  hs_this : ClaudeSession;
  hs_emitted : list event
}.

Inductive completion (A : Type) : Type :=
| Normal (a : A)
| Throw (e : jserror)
| Beyond.
Arguments Normal {A} a.
Arguments Throw {A} e.
Arguments Beyond {A}.

Definition Handler (A : Type) : Type := hstate -> completion A * hstate.

Definition ret {A} (a : A) : Handler A := fun st => (Normal a, st).

Definition bind {A B} (m : Handler A) (k : A -> Handler B) : Handler B :=
  fun st =>
    match m st with
    | (Normal a, st') => k a st'
    | (Throw e, st') => (Throw e, st')
    | (Beyond, st') => (Beyond, st')
    end.

Notation "'do' x <- m ; k" := (bind m (fun x => k))
  (at level 10, x name, m at level 100, k at level 200).
Notation "m ;; k" := (bind m (fun _ => k))
  (at level 100, k at level 200, right associativity).

Definition throw {A} (e : jserror) : Handler A := fun st => (Throw e, st).

Definition beyond {A} : Handler A := fun st => (Beyond, st).

Definition this : Handler ClaudeSession := fun st => (Normal (hs_this st), st).

Definition update (f : ClaudeSession -> ClaudeSession) : Handler unit :=
  fun st => (Normal tt,
             {| hs_this := f (hs_this st); hs_emitted := hs_emitted st |}).

(** [this.emit(...)]; the listeners are taken not to throw. *)
Definition emit (e : event) : Handler unit :=
  fun st => (Normal tt,
             {| hs_this := hs_this st; hs_emitted := hs_emitted st ++ [e] |}).

Definition when (b : bool) (m : Handler unit) : Handler unit :=
  if b then m else ret tt.

Definition of_option {A} (o : option A) : Handler A :=
  match o with Some a => ret a | None => beyond end.

(** [v.k] where [v] may be [null] or [undefined]. *)
Definition read (v : jsval) (k : string) : Handler jsval :=
  match v with
  | JUndefined | JNull => throw TypeError
  | _ => ret (prop v k)
  end.

(** A template literal's [${v}]. *)
Definition interpolate (v : jsval) : Handler jstring := of_option (to_string v).

(** [this.currentOutput += v]. *)
Definition append_output (v : jsval) : Handler unit :=
  do s <- this;
  do sum <- of_option (js_add (currentOutput s) v);
  update (set_currentOutput sum).

(** [for (const x of l) body(x)] over an array's elements. *)
Fixpoint for_each {A} (body : A -> Handler unit) (l : list A) : Handler unit :=
  match l with
  | [] => ret tt
  | x :: rest => body x ;; for_each body rest
  end.

(** ** ClaudeSession.shortenPath *)

Definition BACKSLASH : N := 92.
Definition SLASH : N := 47.

(** [path] is falsy, a string (the only values with [replace]), or the call
    throws. [parts.slice(-2)] keeps the last two parts. *)
Definition shortenPath (path : jsval) : Handler jstring :=
  if negb (truthy path) then ret []
  else
    match path with
    | JStr p =>
        let parts :=
          split SLASH (map (fun c => if (c =? BACKSLASH)%N then SLASH else c) p) in
        if 2 <? length parts
        then ret (lit ".../" ++ join (lit "/") (drop (length parts - 2) parts))
        else ret p
    | _ => throw TypeError
    end.

(** ** ClaudeSession.handleJsonLine *)

(** The [tool_use] branch of the content loop. *)
Definition handle_tool_use (block : jsval) : Handler unit :=
  let toolName := js_or (prop block "name") (JStr (lit "Tool")) in
  let toolInput := js_or (prop block "input") (JObj []) in
  do status <-
    (if js_is toolName "Read" && truthy (prop toolInput "file_path") then
       do p <- shortenPath (prop toolInput "file_path");
       ret (JStr (lit "Reading " ++ p))
     else if js_is toolName "Write" && truthy (prop toolInput "file_path") then
       do p <- shortenPath (prop toolInput "file_path");
       ret (JStr (lit "Writing " ++ p))
     else if js_is toolName "Edit" && truthy (prop toolInput "file_path") then
       do p <- shortenPath (prop toolInput "file_path");
       ret (JStr (lit "Editing " ++ p))
     else if js_is toolName "Bash" && truthy (prop toolInput "command") then
       match prop toolInput "command" with
       | JStr command =>
           let cmd := substring command 0 30 in
           ret (JStr (lit "Running: " ++ cmd
                      ++ (if 30 <? length command then lit "..." else [])))
       | _ => throw TypeError
       end
     else if js_is toolName "Grep" || js_is toolName "Glob" then
       ret (JStr (lit "Searching..."))
     else if js_is toolName "WebFetch" then
       ret (JStr (lit "Fetching web content"))
     else if js_is toolName "Task" then
       ret (JStr (lit "Spawning agent..."))
     else ret toolName);
  emit (E_tool_use toolName toolInput status) ;;
  emit (E_status status).

(** The body of [for (const block of data.message.content)]. *)
Definition handle_block (block : jsval) : Handler unit :=
  do type <- read block "type";
  if js_is type "text" then
    append_output (prop block "text") ;;
    emit (E_text (prop block "text"))
  else if js_is type "thinking" then
    emit (E_thinking (prop block "thinking"))
  else if js_is type "tool_use" then
    handle_tool_use block
  else ret tt.

(** The loop itself: an array is walked; the pieces of a string have no
    [type], so a string is walked without effect; anything else that got
    past the truthiness test is not iterable. *)
Definition for_blocks (content : jsval) : Handler unit :=
  match content with
  | JArr blocks => for_each handle_block blocks
  | JStr _ => ret tt
  | _ => throw TypeError
  end.

(** [if (data.session_id && !this.sessionId) { ...; this.emit('session', ...) }] *)
Definition latch_sessionId (data : jsval) : Handler unit :=
  do s <- this;
  when (truthy (prop data "session_id") && negb (truthy (sessionId s)))
    (update (set_sessionId (prop data "session_id")) ;;
     emit (E_session (prop data "session_id"))).

(** The [switch (data.type)] inside the [try]. *)
Definition handle_data (data : jsval) : Handler unit :=
  do type <- read data "type";
  if js_is type "system" then
    when (js_is (prop data "subtype") "init")
      (latch_sessionId data ;; emit (E_init data))
  else if js_is type "assistant" then
    when (truthy (prop data "message")
          && truthy (prop (prop data "message") "content"))
      (for_blocks (prop (prop data "message") "content")) ;;
    latch_sessionId data
  else if js_is type "content_block_start" then
    let content_block := prop data "content_block" in
    if truthy content_block && js_is (prop content_block "type") "tool_use" then
      do toolName <- interpolate (prop content_block "name");
      emit (E_status (JStr (lit "Using " ++ toolName ++ lit "...")))
    else if truthy content_block && js_is (prop content_block "type") "thinking"
    then emit (E_status (JStr (lit "Thinking...")))
    else ret tt
  else if js_is type "content_block_delta" then
    let delta := prop data "delta" in
    when (truthy delta)
      (if js_is (prop delta "type") "thinking_delta"
          && truthy (prop delta "thinking") then
         emit (E_thinking (prop delta "thinking"))
       else if js_is (prop delta "type") "text_delta"
               && truthy (prop delta "text") then
         append_output (prop delta "text") ;;
         emit (E_text (prop delta "text"))
       else ret tt)
  else if js_is type "result" then
    when (truthy (prop data "result"))
      (update (set_currentOutput (prop data "result"))) ;;
    when (truthy (prop data "session_id"))
      (update (set_sessionId (prop data "session_id"))) ;;
    emit (E_result data)
  else emit (E_event data).

(** [JSON.parse] belongs to the runtime: the model takes it as given.
    [None] is a thrown [SyntaxError]. *)
Class Runtime : Type := {
  JSON_parse : jstring -> option jsval
}.

(** [try { ... } catch (e) { this.emit('parse_error', { line, error }) }].
    The result is the object after the call and the events emitted by it;
    [None] when the call leaves the model. *)
Definition handleJsonLine {rt : Runtime} (s : ClaudeSession) (line : jstring)
    : option (ClaudeSession * list event) :=
  match JSON_parse line with
  | None => Some (s, [E_parse_error line SyntaxError])
  | Some data =>
      match handle_data data {| hs_this := s; hs_emitted := [] |} with
      | (Normal _, st) => Some (hs_this st, hs_emitted st)
      | (Throw e, st) =>
          Some (hs_this st, hs_emitted st ++ [E_parse_error line e])
      | (Beyond, _) => None
      end
  end.

(** ** Buffer.prototype.toString

    [data.toString()] decodes the chunk's bytes as UTF-8 on its own: an
    ill-formed or truncated sequence becomes U+FFFD, one per maximal
    subpart, and a code point above U+FFFF becomes a surrogate pair. *)

Definition REPLACEMENT : N := 65533.

Definition utf16 (cp : N) : jstring :=
  if (cp <? 65536)%N then [cp]
  else [(55296 + (cp - 65536) / 1024)%N; (56320 + (cp - 65536) mod 1024)%N].

(** Decoder state between two bytes: nothing pending, or a code point under
    construction with the number of continuation bytes still needed and the
    range allowed for the next one. *)
Inductive utf8_state : Type :=
| Idle
| Partial (cp : N) (needed : nat) (lower upper : N).

(** A byte met with nothing pending. *)
Definition utf8_lead (b : N) : jstring * utf8_state :=
  if (b <=? 127)%N then ([b], Idle)
  else if (194 <=? b)%N && (b <=? 223)%N then ([], Partial (b - 192) 1 128 191)
  else if (224 <=? b)%N && (b <=? 239)%N then
    ([], Partial (b - 224) 2 (if (b =? 224)%N then 160 else 128)
                             (if (b =? 237)%N then 159 else 191))
  else if (240 <=? b)%N && (b <=? 244)%N then
    ([], Partial (b - 240) 3 (if (b =? 240)%N then 144 else 128)
                             (if (b =? 244)%N then 143 else 191))
  else ([REPLACEMENT], Idle).

Fixpoint utf8_run (st : utf8_state) (bytes : list byte) : jstring :=
  match bytes with
  | [] => match st with Idle => [] | Partial _ _ _ _ => [REPLACEMENT] end
  | x :: rest =>
      let b := Byte.to_N x in
      match st with
      | Idle =>
          let '(out, st') := utf8_lead b in out ++ utf8_run st' rest
      | Partial cp needed lower upper =>
          if (lower <=? b)%N && (b <=? upper)%N then
            let cp' := (cp * 64 + (b - 128))%N in
            match needed with
            | S (S n) => utf8_run (Partial cp' (S n) 128 191) rest
            | _ => utf16 cp' ++ utf8_run Idle rest
            end
          else
            let '(out, st') := utf8_lead b in
            REPLACEMENT :: out ++ utf8_run st' rest
      end
  end.

Definition toString (data : list byte) : jstring := utf8_run Idle data.

(** The bytes of an ASCII literal. *)
Fixpoint bytes_of (s : string) : list byte :=
  match s with
  | EmptyString => []
  | String a s' => byte_of_ascii a :: bytes_of s'
  end.

(** ** A JSON reader

    A recursive-descent reader for the JSON grammar, so that the model runs
    on concrete lines: it is one instance of [Runtime]; the properties of
    Part II hold for every instance. It reads a number's literal without
    rounding it. *)
Module Json.

Definition is_ws (c : N) : bool :=
  ((c =? 32) || (c =? 9) || (c =? 10) || (c =? 13))%N.

Fixpoint skip_ws (s : jstring) : jstring :=
  match s with
  | c :: s' => if is_ws c then skip_ws s' else s
  | [] => []
  end.

Definition is_digit (c : N) : bool := ((48 <=? c) && (c <=? 57))%N.

Definition hex_digit (c : N) : option N :=
  if is_digit c then Some (c - 48)%N
  else if ((97 <=? c) && (c <=? 102))%N then Some (c - 87)%N
  else if ((65 <=? c) && (c <=? 70))%N then Some (c - 55)%N
  else None.

(** After the opening quote: the string's code units and what follows the
    closing quote. *)
Fixpoint chars (s acc : jstring) : option (jstring * jstring) :=
  match s with
  | [] => None
  | c :: rest =>
      if (c =? 34)%N then Some (acc, rest)
      else if (c =? 92)%N then
        match rest with
        | e :: rest' =>
            if (e =? 34)%N then chars rest' (acc ++ [34%N])
            else if (e =? 92)%N then chars rest' (acc ++ [92%N])
            else if (e =? 47)%N then chars rest' (acc ++ [47%N])
            else if (e =? 98)%N then chars rest' (acc ++ [8%N])
            else if (e =? 102)%N then chars rest' (acc ++ [12%N])
            else if (e =? 110)%N then chars rest' (acc ++ [10%N])
            else if (e =? 114)%N then chars rest' (acc ++ [13%N])
            else if (e =? 116)%N then chars rest' (acc ++ [9%N])
            else if (e =? 117)%N then
              match rest' with
              | h1 :: h2 :: h3 :: h4 :: rest'' =>
                  match hex_digit h1, hex_digit h2, hex_digit h3, hex_digit h4 with
                  | Some a, Some b, Some c', Some d =>
                      chars rest'' (acc ++ [(((a * 16 + b) * 16 + c') * 16 + d)%N])
                  | _, _, _, _ => None
                  end
              | _ => None
              end
            else None
        | [] => None
        end
      else if (c <? 32)%N then None
      else chars rest (acc ++ [c])
  end.

Fixpoint digits (s : jstring) : jstring * jstring :=
  match s with
  | c :: s' =>
      if is_digit c then let '(d, r) := digits s' in (c :: d, r) else ([], s)
  | [] => ([], [])
  end.

Definition has_nonzero (d : jstring) : bool :=
  existsb (fun c => negb (c =? 48)%N) d.

(** [-? int frac? exp?], with no leading zero in a longer integer part. *)
Definition number (s : jstring) : option (jsval * jstring) :=
  let '(sign, s1) := match s with
                     | c :: r => if (c =? 45)%N then ([c], r) else ([], s)
                     | [] => ([], s)
                     end in
  let '(int, s2) := digits s1 in
  match int with
  | [] => None
  | d :: more =>
      if (d =? 48)%N && negb (length more =? 0) then None
      else
        let frac :=
          match s2 with
          | c :: r =>
              if (c =? 46)%N then
                let '(f, r') := digits r in
                match f with [] => None | _ => Some (c :: f, r') end
              else Some ([], s2)
          | [] => Some ([], s2)
          end in
        match frac with
        | None => None
        | Some (f, s3) =>
            let exp :=
              match s3 with
              | c :: r =>
                  if ((c =? 101) || (c =? 69))%N then
                    let '(sg, r1) :=
                      match r with
                      | x :: r' =>
                          if ((x =? 43) || (x =? 45))%N then ([x], r') else ([], r)
                      | [] => ([], r)
                      end in
                    let '(e, r2) := digits r1 in
                    match e with [] => None | _ => Some (c :: sg ++ e, r2) end
                  else Some ([], s3)
              | [] => Some ([], s3)
              end in
            match exp with
            | None => None
            | Some (e, s4) =>
                Some (JNum (has_nonzero int || has_nonzero f)
                           (sign ++ int ++ f ++ e), s4)
            end
        end
  end.

Fixpoint starts_with (p s : jstring) : option jstring :=
  match p, s with
  | [], _ => Some s
  | a :: p', b :: s' => if (a =? b)%N then starts_with p' s' else None
  | _ :: _, [] => None
  end.

Fixpoint value (fuel : nat) (s : jstring) : option (jsval * jstring) :=
  match fuel with
  | O => None
  | S fuel' =>
      match skip_ws s with
      | [] => None
      | c :: rest =>
          if (c =? 34)%N then
            match chars rest [] with
            | Some (str, r) => Some (JStr str, r)
            | None => None
            end
          else if (c =? 91)%N then
            match skip_ws rest with
            | x :: r => if (x =? 93)%N then Some (JArr [], r)
                        else elements fuel' rest []
            | [] => None
            end
          else if (c =? 123)%N then
            match skip_ws rest with
            | x :: r => if (x =? 125)%N then Some (JObj [], r)
                        else members fuel' rest []
            | [] => None
            end
          else if (c =? 110)%N then
            match starts_with (lit "null") (c :: rest) with
            | Some r => Some (JNull, r)
            | None => None
            end
          else if (c =? 116)%N then
            match starts_with (lit "true") (c :: rest) with
            | Some r => Some (JBool true, r)
            | None => None
            end
          else if (c =? 102)%N then
            match starts_with (lit "false") (c :: rest) with
            | Some r => Some (JBool false, r)
            | None => None
            end
          else number (c :: rest)
      end
  end
with elements (fuel : nat) (s : jstring) (acc : list jsval)
    : option (jsval * jstring) :=
  match fuel with
  | O => None
  | S fuel' =>
      match value fuel' s with
      | Some (v, r) =>
          match skip_ws r with
          | c :: r' =>
              if (c =? 44)%N then elements fuel' r' (acc ++ [v])
              else if (c =? 93)%N then Some (JArr (acc ++ [v]), r')
              else None
          | [] => None
          end
      | None => None
      end
  end
with members (fuel : nat) (s : jstring) (acc : list (jstring * jsval))
    : option (jsval * jstring) :=
  match fuel with
  | O => None
  | S fuel' =>
      match skip_ws s with
      | q :: r0 =>
          if (q =? 34)%N then
            match chars r0 [] with
            | Some (key, r1) =>
                match skip_ws r1 with
                | colon :: r2 =>
                    if (colon =? 58)%N then
                      match value fuel' r2 with
                      | Some (v, r3) =>
                          match skip_ws r3 with
                          | c :: r4 =>
                              if (c =? 44)%N
                              then members fuel' r4 (acc ++ [(key, v)])
                              else if (c =? 125)%N
                              then Some (JObj (acc ++ [(key, v)]), r4)
                              else None
                          | [] => None
                          end
                      | None => None
                      end
                    else None
                | [] => None
                end
            | None => None
            end
          else None
      | [] => None
      end
  end.

Definition parse (s : jstring) : option jsval :=
  match value (2 * length s + 2) s with
  | Some (v, r) => match skip_ws r with [] => Some v | _ :: _ => None end
  | None => None
  end.

End Json.

Definition node : Runtime := {| JSON_parse := Json.parse |}.

(** Sample lines are written with apostrophes for the quotation marks. *)
Definition json (s : string) : jstring :=
  map (fun c => if (c =? 39)%N then 34%N else c) (lit s).

(** ** ClaudeSession.send and the handlers it installs

    The runtime around one session object: the [buffer] variable of each
    call's closure (kept by the child process it belongs to), the timers
    that are armed, the signals sent, what each child was spawned with, how
    the promises returned by [send] were settled, and the events emitted. *)

Inductive reason : Type :=
| AlreadyProcessing          (* 'Already processing a message. Please wait.' *)
| ResponseTimeout            (* 'Response timeout' *)
| ProcessError (err : jstring).

Inductive settlement : Type :=
| Resolved (output sessionId : jsval)   (* resolve({ output, sessionId }) *)
| Rejected (error : reason).

Record spawn_record : Type := {
  sp_pid : nat;
  sp_args : list jsval;
  sp_cwd : jsval;
  sp_stdin : jsval
}.

Record World : Type := {
  session : ClaudeSession;
  CLAUDE_MODEL : jsval;
  buffers : gmap nat jstring;
  timers : gset nat;
  signals : list nat;
  spawned : list spawn_record;
  settled : list (nat * settlement);
  emitted : list event;
  next_handle : nat
}.

Definition with_session (s : ClaudeSession) (w : World) : World :=
  {| session := s; CLAUDE_MODEL := CLAUDE_MODEL w; buffers := buffers w;
     timers := timers w; signals := signals w; spawned := spawned w;
     settled := settled w; emitted := emitted w;
     next_handle := next_handle w |}.

Definition with_timers (t : gset nat) (w : World) : World :=
  {| session := session w; CLAUDE_MODEL := CLAUDE_MODEL w; buffers := buffers w;
     timers := t; signals := signals w; spawned := spawned w;
     settled := settled w; emitted := emitted w;
     next_handle := next_handle w |}.

Definition with_signal (pid : nat) (w : World) : World :=
  {| session := session w; CLAUDE_MODEL := CLAUDE_MODEL w; buffers := buffers w;
     timers := timers w; signals := signals w ++ [pid]; spawned := spawned w;
     settled := settled w; emitted := emitted w;
     next_handle := next_handle w |}.

Definition with_settlement (p : nat) (o : settlement) (w : World) : World :=
  {| session := session w; CLAUDE_MODEL := CLAUDE_MODEL w; buffers := buffers w;
     timers := timers w; signals := signals w; spawned := spawned w;
     settled := settled w ++ [(p, o)]; emitted := emitted w;
     next_handle := next_handle w |}.

Definition with_emitted (evs : list event) (w : World) : World :=
  {| session := session w; CLAUDE_MODEL := CLAUDE_MODEL w; buffers := buffers w;
     timers := timers w; signals := signals w; spawned := spawned w;
     settled := settled w; emitted := emitted w ++ evs;
     next_handle := next_handle w |}.

Definition with_buffer (pid : nat) (b : jstring) (w : World) : World :=
  {| session := session w; CLAUDE_MODEL := CLAUDE_MODEL w;
     buffers := <[pid := b]> (buffers w);
     timers := timers w; signals := signals w; spawned := spawned w;
     settled := settled w; emitted := emitted w;
     next_handle := next_handle w |}.

Definition new_World (s : ClaudeSession) (model : jsval) : World :=
  {| session := s; CLAUDE_MODEL := model; buffers := ∅; timers := ∅;
     signals := []; spawned := []; settled := []; emitted := [];
     next_handle := 0 |}.

(** [clearTimeout(this.timeoutId)]. *)
Definition clearTimeout (w : World) : World :=
  match timeoutId (session w) with
  | Some t => with_timers (timers w ∖ {[t]}) w
  | None => w
  end.

(** What a call of [send] returns: a promise left pending, or one already
    rejected by the [throw] at the top of the async function. *)
Inductive send_result : Type :=
| Pending (promise : nat)
| RejectedAtOnce (error : reason).

Definition spawn_args (w : World) : list jsval :=
  map (fun a => JStr (lit a))
      ["-p"; "--input-format"; "stream-json"; "--output-format"; "stream-json"]%string
  ++ (if truthy (CLAUDE_MODEL w)
      then [JStr (lit "--model"); CLAUDE_MODEL w] else [])
  ++ (if truthy (sessionId (session w))
      then [JStr (lit "--resume"); sessionId (session w)] else []).

(** [send(message)]. The child, its timer and the promise of one call get
    the same fresh number. *)
Definition send (w : World) (message : jsval) : World * send_result :=
  if isProcessing (session w) then (w, RejectedAtOnce AlreadyProcessing)
  else
    let n := next_handle w in
    let s1 := set_currentOutput (JStr [])
                (set_pending (Some n) (Some n)
                   (set_isProcessing true (session w))) in
    ({| session := set_timeoutId (Some n) (set_process (Some n) s1);
        CLAUDE_MODEL := CLAUDE_MODEL w;
        buffers := <[n := []]> (buffers w);
        timers := {[n]} ∪ timers w;
        signals := signals w;
        spawned := spawned w
                   ++ [{| sp_pid := n; sp_args := spawn_args w;
                          sp_cwd := workingDir (session w);
                          sp_stdin := message |}];
        settled := settled w;
        emitted := emitted w;
        next_handle := S n |},
     Pending n).

(** [for (const line of lines) if (line.trim()) this.handleJsonLine(line.trim())] *)
Fixpoint handle_lines {rt : Runtime} (s : ClaudeSession) (lines : list jstring)
    : option (ClaudeSession * list event) :=
  match lines with
  | [] => Some (s, [])
  | line :: rest =>
      if truthy (JStr (trim line)) then
        match handleJsonLine s (trim line) with
        | Some (s1, evs1) =>
            match handle_lines s1 rest with
            | Some (s2, evs2) => Some (s2, evs1 ++ evs2)
            | None => None
            end
        | None => None
        end
      else handle_lines s rest
  end.

(** The body of the stdout handler once the chunk is a string:
    [buffer += text; lines = buffer.split('\n'); buffer = lines.pop() || '']
    and the loop over the complete lines. *)
Definition feed {rt : Runtime} (s : ClaudeSession) (buffer text : jstring)
    : option (ClaudeSession * jstring * list event) :=
  let lines := split NL (buffer ++ text) in
  match handle_lines s (removelast lines) with
  | Some (s', evs) => Some (s', List.last lines [], evs)
  | None => None
  end.

(** [process.stdout.on('data', ...)] of the child [pid]. *)
Definition on_stdout {rt : Runtime} (w : World) (pid : nat) (data : list byte)
    : option World :=
  match buffers w !! pid with
  | None => Some w
  | Some buffer =>
      match feed (session w) buffer (toString data) with
      | Some (s', buffer', evs) =>
          Some (with_emitted evs (with_buffer pid buffer' (with_session s' w)))
      | None => None
      end
  end.

(** [process.stderr.on('data', ...)]. *)
Definition on_stderr (w : World) (data : list byte) : World :=
  with_emitted [E_stderr (toString data)] w.

(** [process.on('close', (code) => ...)]. *)
Definition on_close (w : World) (code : Z) : World :=
  let w1 := clearTimeout
              (with_session
                 (set_process None (set_isProcessing false (session w))) w) in
  match pendingResolve (session w1) with
  | Some p =>
      with_session (set_pending None None (session w1))
        (with_settlement p
           (Resolved (currentOutput (session w1)) (sessionId (session w1))) w1)
  | None => w1
  end.

(** [process.on('error', (err) => ...)]. *)
Definition on_error (w : World) (err : jstring) : World :=
  let w1 := clearTimeout
              (with_session
                 (set_process None (set_isProcessing false (session w))) w) in
  match pendingReject (session w1) with
  | Some p =>
      with_session (set_pending None None (session w1))
        (with_settlement p (Rejected (ProcessError err)) w1)
  | None => w1
  end.

(** The callback given to [setTimeout], run when timer [t] expires; a timer
    that is not armed never fires. *)
Definition on_timeout (w : World) (t : nat) : World :=
  if bool_decide (t ∈ timers w) then
    let w1 := with_timers (timers w ∖ {[t]}) w in
    match process (session w1) with
    | Some pid =>
        let w2 := with_signal pid w1 in
        match pendingReject (session w2) with
        | Some p =>
            with_session (set_pending None None (session w2))
              (with_settlement p (Rejected ResponseTimeout) w2)
        | None => w2
        end
    | None => w1
    end
  else w.

(** [kill()]. *)
Definition kill (w : World) : World :=
  let w1 := match process (session w) with
            | Some pid =>
                with_session (set_process None (session w)) (with_signal pid w)
            | None => w
            end in
  clearTimeout (with_session (set_isProcessing false (session w1)) w1).

(** What can happen to a session, and a run of such happenings. The results
    of the [send] calls are collected in order. *)
Inductive input : Type :=
| In_send (message : jsval)
| In_stdout (pid : nat) (data : list byte)
| In_stderr (data : list byte)
| In_close (code : Z)
| In_error (err : jstring)
| In_timeout (timer : nat)
| In_kill.

Definition step {rt : Runtime} (w : World) (i : input)
    : option (World * list send_result) :=
  match i with
  | In_send message => let '(w', r) := send w message in Some (w', [r])
  | In_stdout pid data => (fun w' => (w', [])) <$> on_stdout w pid data
  | In_stderr data => Some (on_stderr w data, [])
  | In_close code => Some (on_close w code, [])
  | In_error err => Some (on_error w err, [])
  | In_timeout t => Some (on_timeout w t, [])
  | In_kill => Some (kill w, [])
  end.

Fixpoint run {rt : Runtime} (w : World) (inputs : list input)
    : option (World * list send_result) :=
  match inputs with
  | [] => Some (w, [])
  | i :: rest =>
      match step w i with
      | Some (w1, r1) =>
          match run w1 rest with
          | Some (w2, r2) => Some (w2, r1 ++ r2)
          | None => None
          end
      | None => None
      end
  end.

(** ** The session registry: [const sessions = new Map()]

    The map holds the session objects; an object changed through the map is
    changed in the map. *)

Definition session_key (channelId userId : jstring) : jstring :=
  channelId ++ lit "_" ++ userId.

Definition getOrCreateSession (sessions : gmap jstring ClaudeSession)
    (cwd : jstring) (channelId userId : jstring) (options : session_options)
    : gmap jstring ClaudeSession * ClaudeSession :=
  let key := session_key channelId userId in
  match sessions !! key with
  | None =>
      let session :=
        new_ClaudeSession cwd
          {| opt_sessionId := opt_sessionId options;
             opt_workingDir := opt_workingDir options;
             opt_timeout := None |} in
      (<[key := session]> sessions, session)
  | Some session =>
      let session1 :=
        if truthy (opt_sessionId options)
        then set_sessionId (opt_sessionId options) session else session in
      let session2 :=
        if truthy (opt_workingDir options)
        then set_workingDir (opt_workingDir options) session1 else session1 in
      (<[key := session2]> sessions, session2)
  end.

Definition getSession (sessions : gmap jstring ClaudeSession)
    (channelId userId : jstring) : option ClaudeSession :=
  sessions !! session_key channelId userId.

(** [session.kill()] on the object alone: the object afterwards, the child
    signalled and the timer cleared, if any. *)
Definition kill_object (s : ClaudeSession)
    : ClaudeSession * option nat * option nat :=
  (set_isProcessing false (set_process None s), process s, timeoutId s).

(** [removeSession]: the map afterwards, the killed object if there was one,
    and the returned [!!session]. *)
Definition removeSession (sessions : gmap jstring ClaudeSession)
    (channelId userId : jstring)
    : gmap jstring ClaudeSession
      * option (ClaudeSession * option nat * option nat) * bool :=
  let key := session_key channelId userId in
  let session := sessions !! key in
  (delete key sessions, kill_object <$> session, bool_decide (is_Some session)).

(** ** The PTY version's registry: [const activeSessions = new Map()]

    src/claude-manager.js keeps its sessions under the same key string. Of
    a PTY session the registry reads [isRunning] and calls [start] and
    [kill]; [handle] is the pseudo-terminal [pty.spawn] returns and [now]
    is [Date.now()]. *)
Module Pty.

Record PtySession : Type := {
  pty : option nat;
  sessionId : jsval;
  workingDir : jsval;
  isRunning : bool;
  isReady : bool;
  outputBuffer : jstring;
  lastActivity : Z;
  discordBuffer : jstring;
  bufferTimeout : option nat
}.

Definition new_PtySession (cwd : jstring) (now : Z) (options : session_options)
    : PtySession :=
  {| pty := None;
     sessionId := js_or (opt_sessionId options) JNull;
     workingDir := js_or (opt_workingDir options) (JStr cwd);
     isRunning := false; isReady := false; outputBuffer := [];
     lastActivity := now; discordBuffer := []; bufferTimeout := None |}.

Definition start (handle : nat) (s : PtySession) : PtySession :=
  {| pty := Some handle; sessionId := sessionId s; workingDir := workingDir s;
     isRunning := true; isReady := isReady s; outputBuffer := outputBuffer s;
     lastActivity := lastActivity s; discordBuffer := discordBuffer s;
     bufferTimeout := bufferTimeout s |}.

Definition kill (s : PtySession) : PtySession :=
  {| pty := None; sessionId := sessionId s; workingDir := workingDir s;
     isRunning := false; isReady := false; outputBuffer := outputBuffer s;
     lastActivity := lastActivity s; discordBuffer := discordBuffer s;
     bufferTimeout := bufferTimeout s |}.

Definition getOrCreateSession (activeSessions : gmap jstring PtySession)
    (cwd : jstring) (now : Z) (handle : nat) (channelId userId : jstring)
    (options : session_options) : gmap jstring PtySession * PtySession :=
  let key := session_key channelId userId in
  match activeSessions !! key with
  | Some session =>
      if isRunning session then (activeSessions, session)
      else
        let fresh := start handle (new_PtySession cwd now options) in
        (<[key := fresh]> activeSessions, fresh)
  | None =>
      let fresh := start handle (new_PtySession cwd now options) in
      (<[key := fresh]> activeSessions, fresh)
  end.

Definition getSession (activeSessions : gmap jstring PtySession)
    (channelId userId : jstring) : option PtySession :=
  activeSessions !! session_key channelId userId.

(** [killSession]: the map afterwards, the killed object, the result. *)
Definition killSession (activeSessions : gmap jstring PtySession)
    (channelId userId : jstring)
    : gmap jstring PtySession * option PtySession * bool :=
  let key := session_key channelId userId in
  match activeSessions !! key with
  | Some session => (delete key activeSessions, Some (kill session), true)
  | None => (activeSessions, None, false)
  end.

Definition STALE_THRESHOLD : Z := 30 * 60 * 1000.

Definition is_stale (now : Z) (s : PtySession) : bool :=
  (STALE_THRESHOLD <? now - lastActivity s)%Z.

(** [cleanupStaleSessions], with [now] for [Date.now()]: the loop over the
    entries of the map, deleting as it goes; the map afterwards and the
    objects killed. The entries are visited in the order [map_to_list] gives
    them, where a JS Map goes by insertion: an iteration neither reads nor
    writes what another one wrote, but for the key it deletes. *)
Definition cleanupStaleSessions (activeSessions : gmap jstring PtySession)
    (now : Z) : gmap jstring PtySession * list PtySession :=
  fold_left
    (fun acc entry =>
       if is_stale now entry.2
       then (delete entry.1 acc.1, acc.2 ++ [kill entry.2])
       else acc)
    (map_to_list activeSessions) (activeSessions, []).

End Pty.

(** ** DiscordBot.handleMessage: the throttled reply

    The state of one turn's reply: the closure variables of [handleMessage],
    the user's entry in [userDisplayModes], and the calls made on Discord so
    far. What a call shows is kept by what it is rendered from, since the
    renderers of utils/formatter.js are not interpreted here:
    [formatStructuredOutput(streamBlocks, mode)], with the status line of
    [formatStatusLine()] appended or not, or [formatError(error)]. *)

Inductive display_mode : Type := RawMode | CleanMode.

Inductive block_type : Type := TextBlock | ThinkingBlock | ToolBlock.

Record block : Type := { b_type : block_type; b_content : jsval }.
















Definition toggle (m : display_mode) : display_mode :=
  match m with RawMode => CleanMode | CleanMode => RawMode end.






(** ** Reading a run: the notions the properties are stated with *)

(** The text deltas among some events, in arrival order. *)
Fixpoint texts (evs : list event) : list jsval :=
  match evs with
  | [] => []
  | E_text t :: rest => t :: texts rest
  | _ :: rest => texts rest
  end.

(** [start + t1 + t2 + ...], left to right, as [+=] builds it. *)
Fixpoint concat_texts (start : jsval) (ts : list jsval) : option jsval :=
  match ts with
  | [] => Some start
  | t :: rest =>
      match js_add start t with
      | Some sum => concat_texts sum rest
      | None => None
      end
  end.

(** The final output, and the identity token, a [result] record carries. *)
Definition carried_output (data : jsval) : option jsval :=
  if js_is (prop data "type") "result" && truthy (prop data "result")
  then Some (prop data "result") else None.


(** The same of a line of the stream, as the stdout handler treats it: blank
    lines are skipped, the others are trimmed and parsed. *)
Definition decoded {rt : Runtime} (line : jstring) : option jsval :=
  if truthy (JStr (trim line)) then JSON_parse (trim line) else None.

Definition final_output {rt : Runtime} (line : jstring) : option jsval :=
  match decoded line with
  | Some data => carried_output data
  | None => None
  end.


(** Feeding the stdout handler a run of decoded chunks. *)
Fixpoint feed_all {rt : Runtime} (s : ClaudeSession) (buffer : jstring)
    (chunks : list jstring) : option (ClaudeSession * jstring * list event) :=
  match chunks with
  | [] => Some (s, buffer, [])
  | text :: rest =>
      match feed s buffer text with
      | Some (s1, buffer1, evs1) =>
          match feed_all s1 buffer1 rest with
          | Some (s2, buffer2, evs2) => Some (s2, buffer2, evs1 ++ evs2)
          | None => None
          end
      | None => None
      end
  end.

(** The promises settled by a world, in order, and how often one was. *)
Definition settlements_of (p : nat) (w : World) : list settlement :=
  map snd (List.filter (fun x => fst x =? p) (settled w)).

Definition is_accepted (r : send_result) : bool :=
  match r with Pending _ => true | RejectedAtOnce _ => false end.

Definition is_rejected_busy (r : send_result) : bool :=
  match r with RejectedAtOnce AlreadyProcessing => true | _ => false end.

Definition accepted (rs : list send_result) : nat :=
  length (List.filter is_accepted rs).

Definition rejected_busy (rs : list send_result) : nat :=
  length (List.filter is_rejected_busy rs).


(** Inputs that do not end a turn: everything but the child's close and
    error events and a call of [kill]. *)
Definition quiet (i : input) : bool :=
  match i with
  | In_close _ | In_error _ | In_kill => false
  | _ => true
  end.

Definition is_send (i : input) : bool :=
  match i with In_send _ => true | _ => false end.

Definition sends (inputs : list input) : nat :=
  length (List.filter is_send inputs).





Definition UNDERSCORE : N := 95.

(** ** Sample inputs *)

(** The bytes of a sample line, written with apostrophes for the quotation
    marks. *)
Definition json_bytes (s : string) : list byte :=
  map (fun b => if Byte.eqb b x27 then x22 else b) (bytes_of s).

Definition sample_world : World :=
  new_World (new_ClaudeSession (lit "/work") no_options) JNull.

Definition init_line : jstring :=
  json "{'type':'system','subtype':'init','session_id':'first'}".

Definition assistant_line : jstring :=
  json "{'type':'assistant','message':{'content':[{'type':'text','text':'hi'}]},'session_id':'second'}".

Definition result_line : jstring :=
  json "{'type':'result','result':'done','session_id':'third'}".

Definition malformed_line : jstring := lit "{not json".

Definition text_chunk : list byte :=
  json_bytes "{'type':'assistant','message':{'content':[{'type':'text','text':'partial'}]}}"
  ++ [x0a].

Definition result_chunk : list byte :=
  json_bytes "{'type':'result','result':'done'}" ++ [x0a].

(** A text record whose text is U+00E9, two bytes in UTF-8, cut between
    them. *)
Definition accent_head : list byte :=
  json_bytes "{'type':'assistant','message':{'content':[{'type':'text','text':'"
  ++ [xc3].

Definition accent_tail : list byte :=
  [xa9] ++ json_bytes "'}]}}" ++ [x0a].

(** ** Relations and invariants the proofs go through *)

(** Whatever the computation does to the state, short of leaving the model,
    is within [R]. *)
Definition respects (R : hstate -> hstate -> Prop) {A} (m : Handler A)
    : Prop :=
  forall st c st', m st = (c, st') -> c = Beyond \/ R st st'.

(** The events grew by some, and the output by their text deltas. *)
Definition Extends (st st' : hstate) : Prop :=
  exists new,
    hs_emitted st' = hs_emitted st ++ new /\
    concat_texts (currentOutput (hs_this st)) (texts new)
    = Some (currentOutput (hs_this st')).

(** The fields of the object that steer the turn. *)
Definition control (s : ClaudeSession) :=
  (workingDir s, timeout s, process s, isProcessing s,
   pendingResolve s, pendingReject s, timeoutId s).

Definition Frame (st st' : hstate) : Prop :=
  control (hs_this st') = control (hs_this st).


(** Handles are handed out in increasing order: what is settled or pending
    was handed out before. *)
Definition handles_fresh (w : World) : Prop :=
  Forall (fun x => fst x < next_handle w) (settled w)
  /\ (forall p, pendingResolve (session w) = Some p -> p < next_handle w)
  /\ (forall p, pendingReject (session w) = Some p -> p < next_handle w).



(** Every promise handed out is settled at most once, and the two pending
    functions belong to one promise. *)
Definition settled_at_most_once (w : World) : Prop :=
  pendingResolve (session w) = pendingReject (session w)
  /\ NoDup (map fst (settled w))
  /\ (forall p, pendingResolve (session w) = Some p ->
      p ∉ map fst (settled w)).

(** A promise handed out earlier whose functions the object no longer
    holds. *)
Definition forgotten (p : nat) (w : World) : Prop :=
  p < next_handle w
  /\ pendingResolve (session w) <> Some p
  /\ pendingReject (session w) <> Some p.

Definition is_ascii (x : byte) : Prop := (Byte.to_N x <= 127)%N.

(** Output of the child, on either stream. *)
Definition is_output (i : input) : bool :=
  match i with In_stdout _ _ | In_stderr _ => true | _ => false end.

(** The events a record's branch emits as they come: every kind but the
    text delta and the identity announcement, which go with a change of the
    object, and those only the close of a branch or the [catch] emits. *)
Definition is_plain (e : event) : bool :=
  match e with
  | E_init _ | E_thinking _ | E_tool_use _ _ _ | E_status _ | E_event _ => true
  | _ => false
  end.

Definition is_session (e : event) : bool :=
  match e with E_session _ => true | _ => false end.

(** How often the identity is announced among some events. *)
Definition announcements (evs : list event) : nat :=
  length (List.filter is_session evs).

(** With an identity stored nothing is announced; without one, at most one
    announcement, which comes with an identity stored. Either way a stored
    identity stays stored. *)
Definition Announced (s : ClaudeSession) (evs : list event)
    (s' : ClaudeSession) : Prop :=
  if truthy (sessionId s)
  then announcements evs = 0 /\ truthy (sessionId s') = true
  else announcements evs <= 1
       /\ (announcements evs = 1 -> truthy (sessionId s') = true).

Definition Announces (st st' : hstate) : Prop :=
  exists new,
    hs_emitted st' = hs_emitted st ++ new
    /\ Announced (hs_this st) new (hs_this st').

Definition normalise_separators (p : jstring) : jstring :=
  map (fun c => if (c =? BACKSLASH)%N then SLASH else c) p.

(** The separators of a path, of either kind. *)
Definition separators (p : jstring) : nat :=
  length (List.filter (fun c => (c =? SLASH)%N || (c =? BACKSLASH)%N) p).

(** A text without its white space. *)
Definition visible (s : jstring) : jstring :=
  List.filter (fun c => negb (is_js_space c)) s.




(** ** The display mode of a user: [const userDisplayModes = new Map()]

    The map only ever holds what [toggleDisplayMode] sets: 'raw' or
    'clean'. *)
Definition getDisplayMode (userDisplayModes : gmap jstring display_mode)
    (userId : jstring) : display_mode :=
  default RawMode (userDisplayModes !! userId).

Definition toggleDisplayMode (userDisplayModes : gmap jstring display_mode)
    (userId : jstring) : gmap jstring display_mode * display_mode :=
  let current := getDisplayMode userDisplayModes userId in
  let next := match current with RawMode => CleanMode | _ => RawMode end in
  (<[userId := next]> userDisplayModes, next).


(** ** utils/formatter.js: cleanOutput and formatToolOutput

    [stripAnsi] is the strip-ansi package: a function from strings to
    strings, about which nothing more is used. *)
Class Terminal := { stripAnsi : jstring -> jstring }.

Definition CR : N := 13.

(** [s.replace(/\r\n/g, '\n')]. *)
Fixpoint replace_crlf (s : jstring) : jstring :=
  match s with
  | [] => []
  | c :: rest =>
      match rest with
      | d :: rest' =>
          if (c =? CR)%N && (d =? NL)%N then NL :: replace_crlf rest'
          else c :: replace_crlf rest
      | [] => [c]
      end
  end.

(** [s.replace(/\r/g, '\n')]. *)
Definition replace_cr (s : jstring) : jstring :=
  map (fun c => if (c =? CR)%N then NL else c) s.

(** [s.replace(/\n{3,}/g, '\n\n')]: of every run of newlines the first two
    stay. [run] counts the newlines just before [s]. *)
Fixpoint squeeze_newlines (run : nat) (s : jstring) : jstring :=
  match s with
  | [] => []
  | c :: rest =>
      if (c =? NL)%N then
        if 2 <=? run then squeeze_newlines (S run) rest
        else c :: squeeze_newlines (S run) rest
      else c :: squeeze_newlines 0 rest
  end.

(** [cleanOutput(text)] of a string. *)
Definition cleanOutput `{term : Terminal} (text : jstring) : jstring :=
  if negb (truthy (JStr text)) then []
  else trim (squeeze_newlines 0 (replace_cr (replace_crlf (stripAnsi text)))).

Definition CODE_BLOCK_OVERHEAD : Z := 8.

(** [formatToolOutput(toolName, output)] of two strings. *)
Definition formatToolOutput `{term : Terminal} (toolName output : jstring) : jstring :=
  let cleaned := cleanOutput output in
  let maxContent :=
    (MAX_MESSAGE_LENGTH - CODE_BLOCK_OVERHEAD
     - Z.of_nat (length toolName) - 10)%Z in
  if (maxContent <? Z.of_nat (length cleaned))%Z then
    let truncated :=
      substring cleaned 0 (maxContent - 20) ++ [NL] ++ lit "... (truncated)" in
    lit "**" ++ toolName ++ lit "**" ++ [NL] ++ lit "```" ++ [NL]
    ++ truncated ++ [NL] ++ lit "```"
  else
    lit "**" ++ toolName ++ lit "**" ++ [NL] ++ lit "```" ++ [NL]
    ++ cleaned ++ [NL] ++ lit "```".

(** The newlines a text starts with. *)
Fixpoint leading_newlines (s : jstring) : nat :=
  match s with
  | c :: rest => if (c =? NL)%N then S (leading_newlines rest) else 0
  | [] => 0
  end.

(** A terminal for the examples: on a text without escape sequences
    strip-ansi changes nothing. *)
Definition plain_text : Terminal := {| stripAnsi := fun s => s |}.

Definition resumable_line : string :=
  "{'type':'result','result':'done','session_id':'third'}".

(** No partial line kept for a child holds a newline. *)
Definition buffers_hold_no_newline (w : World) : Prop :=
  forall pid buffer, buffers w !! pid = Some buffer -> NL ∉ buffer.

(* ===================================================================== *)
(** * Part II. Properties                                                 *)
(* ===================================================================== *)

Section SplitMessage.

Lemma trimStart_length (s : jstring) : length (trimStart s) <= length s.
Proof.
  induction s as [|c s IH]; simpl; [lia|].
  destruct (is_js_space c); simpl; lia.
Qed.

Lemma lastIndexOf_at_range c s i from :
  let r := lastIndexOf_at c s i from in
  (r = -1 \/ (i <= r <= from /\ r < i + Z.of_nat (length s)))%Z.
Proof.
  revert i. induction s as [|x s IH]; intros i; simpl; [left; reflexivity|].
  specialize (IH (i + 1)%Z). simpl in IH.
  destruct (Z.leb_spec 0 (lastIndexOf_at c s (i + 1) from)) as [Hge|Hlt].
  - destruct IH as [IH|IH]; [lia|]. right. lia.
  - destruct ((x =? c)%N && (i <=? from)%Z) eqn:E; [|left; reflexivity].
    apply andb_true_iff in E as [_ E]. apply Z.leb_le in E. right. lia.
Qed.

Lemma lastIndexOf_range s c from :
  let r := lastIndexOf s c from in
  (r = -1 \/ (0 <= r <= Z.max 0 from /\ r < Z.of_nat (length s)))%Z.
Proof.
  unfold lastIndexOf. pose proof (lastIndexOf_at_range c s 0 (Z.max 0 from)) as H.
  simpl in H. destruct H as [H|H]; [left; exact H|right; lia].
Qed.

Lemma substring_0_length (s : jstring) (k : Z) :
  (Z.of_nat (length (substring s 0 k)) <= Z.max 0 k)%Z.
Proof.
  unfold substring, clamp. rewrite length_take, length_drop. lia.
Qed.

Lemma substring_from_length (s : jstring) (k : Z) :
  (1 <= k)%Z -> s <> [] -> length (substring_from s k) < length s.
Proof.
  intros Hk Hs. unfold substring_from, substring, clamp.
  rewrite length_take, length_drop.
  destruct s as [|c s]; [congruence|]. simpl length. lia.
Qed.

(** The split index the loop settles on lies in [1, maxLength]. *)
Lemma splitIndex_range (remaining : jstring) (maxLength : Z) :
  (1 <= maxLength)%Z ->
  let i1 := lastIndexOf remaining NL maxLength in
  let i2 := if (i1 =? -1)%Z || (2 * i1 <? maxLength)%Z
            then lastIndexOf remaining SP maxLength else i1 in
  let i3 := if (i2 =? -1)%Z || (2 * i2 <? maxLength)%Z then maxLength else i2 in
  (1 <= i3 <= maxLength)%Z.
Proof.
  intros Hm i1 i2 i3.
  pose proof (lastIndexOf_range remaining NL maxLength) as H1.
  pose proof (lastIndexOf_range remaining SP maxLength) as H2.
  simpl in H1, H2. fold i1 in H1.
  assert (Hi2 : (i2 = -1 \/ 0 <= i2 <= maxLength)%Z).
  { subst i2. destruct ((i1 =? -1)%Z || (2 * i1 <? maxLength)%Z); lia. }
  subst i3.
  destruct ((i2 =? -1)%Z || (2 * i2 <? maxLength)%Z) eqn:E; [lia|].
  apply orb_false_iff in E as [E1 E2].
  apply Z.eqb_neq in E1. apply Z.ltb_ge in E2. lia.
Qed.

Lemma splitLoop_spec (maxLength : Z) :
  (1 <= maxLength)%Z ->
  forall (n : nat) (remaining : jstring), length remaining <= n ->
  exists more : list jstring,
    (forall fuel chunks, length remaining < fuel ->
       splitLoop fuel maxLength remaining chunks = Some (chunks ++ more)) /\
    Forall (fun c => (Z.of_nat (length c) <= maxLength)%Z) more /\
    (remaining <> [] -> more <> []).
Proof.
  intros Hm n. induction n as [|n IH]; intros remaining Hlen.
  - destruct remaining; [|simpl in Hlen; lia].
    exists []. split; [|split; [constructor|congruence]].
    intros [|fuel] chunks Hf; [simpl in Hf; lia|].
    simpl. rewrite app_nil_r. reflexivity.
  - destruct (decide (remaining = [])) as [->|Hne].
    { exists []. split; [|split; [constructor|congruence]].
      intros [|fuel] chunks Hf; [simpl in Hf; lia|].
      simpl. rewrite app_nil_r. reflexivity. }
    assert (Hpos : (0 <? Z.of_nat (length remaining))%Z = true).
    { apply Z.ltb_lt. destruct remaining; [congruence|simpl length; lia]. }
    destruct (Z.leb_spec (Z.of_nat (length remaining)) maxLength) as [Hle|Hgt].
    + exists [remaining]. split; [|split].
      * intros [|fuel] chunks Hf; [lia|]. simpl splitLoop. rewrite Hpos.
        apply Z.leb_le in Hle. rewrite Hle. reflexivity.
      * constructor; [exact Hle|constructor].
      * congruence.
    + pose proof (splitIndex_range remaining maxLength Hm) as Hidx. simpl in Hidx.
      set (i1 := lastIndexOf remaining NL maxLength) in *.
      set (i2 := if (i1 =? -1)%Z || (2 * i1 <? maxLength)%Z
                 then lastIndexOf remaining SP maxLength else i1) in *.
      set (i3 := if (i2 =? -1)%Z || (2 * i2 <? maxLength)%Z
                 then maxLength else i2) in *.
      pose proof (substring_from_length remaining i3 ltac:(lia) Hne) as Hshort.
      pose proof (trimStart_length (substring_from remaining i3)) as Htrim.
      destruct (IH (trimStart (substring_from remaining i3)) ltac:(lia))
        as (more & Hrun & Hall & _).
      exists (substring remaining 0 i3 :: more). split; [|split].
      * intros [|fuel] chunks Hf; [lia|]. simpl splitLoop. rewrite Hpos.
        apply Z.leb_gt in Hgt. rewrite Hgt.
        fold i1. fold i2. fold i3.
        rewrite Hrun by lia. rewrite <- app_assoc. reflexivity.
      * constructor; [|exact Hall].
        pose proof (substring_0_length remaining i3). lia.
      * congruence.
Qed.

(** C10. For every content and every maxLength >= 1, splitMessage terminates
    (any fuel above the content's length yields the same result), returns a
    non-empty list of chunks each of length at most maxLength, and returns
    the content alone when it already fits. *)
Theorem splitMessage_chunks (content : jstring) (maxLength : Z) :
  (1 <= maxLength)%Z ->
  exists chunks : list jstring,
    (forall fuel, length content < fuel ->
       splitMessage fuel content maxLength = Some chunks) /\
    chunks <> [] /\
    Forall (fun c => (Z.of_nat (length c) <= maxLength)%Z) chunks /\
    ((Z.of_nat (length content) <= maxLength)%Z -> chunks = [content]).
Proof.
  intros Hm. unfold splitMessage.
  destruct (Z.leb_spec (Z.of_nat (length content)) maxLength) as [Hle|Hgt].
  - exists [content]. repeat split; try congruence.
    constructor; [exact Hle|constructor].
  - destruct (splitLoop_spec maxLength Hm (length content) content (le_n _))
      as (more & Hrun & Hall & Hne).
    exists more. repeat split.
    + intros fuel Hf. apply (Hrun fuel [] Hf).
    + apply Hne. destruct content; [simpl in Hgt; lia|congruence].
    + exact Hall.
    + lia.
Qed.

Lemma splitMessage_chunks_witness :
  (1 <= 5)%Z /\
  exists chunks : list jstring,
    (forall fuel, length (lit "hello brave new world") < fuel ->
       splitMessage fuel (lit "hello brave new world") 5 = Some chunks) /\
    chunks <> [] /\
    Forall (fun c => (Z.of_nat (length c) <= 5)%Z) chunks /\
    ((Z.of_nat (length (lit "hello brave new world")) <= 5)%Z ->
     chunks = [lit "hello brave new world"]).
Proof.
  split; [lia|]. apply (splitMessage_chunks (lit "hello brave new world") 5). lia.
Defined.

Example splitMessage_words :
  splitMessage 30 (lit "hello brave new world") 11
  = Some [lit "hello brave"; lit "new world"].
Proof. reflexivity. Qed.

End SplitMessage.

(** ** The stream decoder *)
Section Decoder.
Context `{rt : Runtime}.

Lemma split_nonempty sep (s : jstring) : split sep s <> [].
Proof.
  destruct s as [|c s]; simpl; [discriminate|].
  destruct (c =? sep)%N; [discriminate|].
  destruct (split sep s); discriminate.
Qed.

Lemma removelast_cons2 {A} (a b : A) l :
  removelast (a :: b :: l) = a :: removelast (b :: l).
Proof. reflexivity. Qed.

Lemma last_cons2 {A} (a b : A) l d :
  List.last (a :: b :: l) d = List.last (b :: l) d.
Proof. reflexivity. Qed.

Lemma last_app_nonempty {A} (l l' : list A) d :
  l' <> [] -> List.last (l ++ l') d = List.last l' d.
Proof.
  intros Hne. induction l as [|a l IH]; [reflexivity|].
  simpl app. destruct (l ++ l') eqn:E; [|exact IH].
  destruct l; [simpl in E; congruence|discriminate].
Qed.

(** Splitting a concatenation: the last, unfinished piece of the first part
    is continued by the second part. *)
Lemma split_app sep (x y : jstring) :
  split sep (x ++ y)
  = removelast (split sep x) ++ split sep (List.last (split sep x) [] ++ y).
Proof.
  induction x as [|c x IH]; [reflexivity|].
  simpl app. simpl split.
  pose proof (split_nonempty sep x) as Hne.
  destruct (c =? sep)%N eqn:Ec.
  - destruct (split sep x) as [|l0 ls] eqn:E; [congruence|].
    rewrite removelast_cons2, last_cons2. simpl. f_equal. exact IH.
  - rewrite IH. destruct (split sep x) as [|l0 [|l1 ls]] eqn:E; [congruence| |].
    + simpl. rewrite Ec. reflexivity.
    + rewrite !removelast_cons2, !last_cons2. reflexivity.
Qed.

Lemma handle_lines_app (s : ClaudeSession) (l1 l2 : list jstring) :
  handle_lines s (l1 ++ l2)
  = match handle_lines s l1 with
    | Some (s1, e1) =>
        match handle_lines s1 l2 with
        | Some (s2, e2) => Some (s2, e1 ++ e2)
        | None => None
        end
    | None => None
    end.
Proof.
  revert s. induction l1 as [|l l1 IH]; intros s.
  - simpl. destruct (handle_lines s l2) as [[s2 e2]|]; reflexivity.
  - rewrite <- app_comm_cons. cbn [handle_lines].
    destruct (truthy (JStr (trim l))); [|apply IH].
    destruct (handleJsonLine s (trim l)) as [[s1 e1]|]; [|reflexivity].
    rewrite IH. destruct (handle_lines s1 l1) as [[s2 e2]|]; [|reflexivity].
    destruct (handle_lines s2 l2) as [[s3 e3]|]; [|reflexivity].
    rewrite app_assoc. reflexivity.
Qed.

(** Chunk-boundary invariance on decoded text: a chunk handed over in two
    pieces leaves the same object and buffer and emits the same events. *)
Lemma feed_app (s : ClaudeSession) (buffer a b : jstring) :
  feed s buffer (a ++ b)
  = match feed s buffer a with
    | Some (s1, buffer1, e1) =>
        match feed s1 buffer1 b with
        | Some (s2, buffer2, e2) => Some (s2, buffer2, e1 ++ e2)
        | None => None
        end
    | None => None
    end.
Proof.
  unfold feed. rewrite app_assoc, split_app.
  set (first := split NL (buffer ++ a)).
  set (second := split NL (List.last first [] ++ b)).
  assert (Hs : second <> []) by apply split_nonempty.
  rewrite removelast_app by exact Hs.
  rewrite last_app_nonempty by exact Hs.
  rewrite handle_lines_app.
  destruct (handle_lines s (removelast first)) as [[s1 e1]|]; [|reflexivity].
  fold second.
  destruct (handle_lines s1 (removelast second)) as [[s2 e2]|]; reflexivity.
Qed.

(** C7. A malformed line yields one parse_error event carrying the line as
    it was handed to the decoder, leaves the session object as it was (the
    turn goes on), and the lines after it decode from the same state to the
    same events as they do without it. *)
Theorem malformed_line_is_skipped (s : ClaudeSession) (pre post : list jstring)
    (bad : jstring) :
  trim bad <> [] ->
  JSON_parse (trim bad) = None ->
  handleJsonLine s (trim bad) = Some (s, [E_parse_error (trim bad) SyntaxError])
  /\ handle_lines s (pre ++ bad :: post)
     = match handle_lines s pre with
       | Some (s1, e1) =>
           match handle_lines s1 post with
           | Some (s2, e2) =>
               Some (s2, e1 ++ E_parse_error (trim bad) SyntaxError :: e2)
           | None => None
           end
       | None => None
       end
  /\ handle_lines s (pre ++ post)
     = match handle_lines s pre with
       | Some (s1, e1) =>
           match handle_lines s1 post with
           | Some (s2, e2) => Some (s2, e1 ++ e2)
           | None => None
           end
       | None => None
       end.
Proof.
  intros Hne Hbad.
  assert (Hline : forall s0, handleJsonLine s0 (trim bad)
                  = Some (s0, [E_parse_error (trim bad) SyntaxError])).
  { intros s0. unfold handleJsonLine. rewrite Hbad. reflexivity. }
  split; [apply Hline|]. split; [|apply handle_lines_app].
  rewrite handle_lines_app.
  destruct (handle_lines s pre) as [[s1 e1]|]; [|reflexivity].
  cbn [handle_lines].
  assert (Ht : truthy (JStr (trim bad)) = true).
  { simpl. unfold str_eqb. rewrite bool_decide_eq_false_2; [reflexivity|exact Hne]. }
  rewrite Ht, Hline.
  destruct (handle_lines s1 post) as [[s2 e2]|]; reflexivity.
Qed.

End Decoder.

(** ** Reasoning about a handler: relations every step respects *)
Section Respects.

Variable R : hstate -> hstate -> Prop.
Hypothesis R_refl : forall st, R st st.
Hypothesis R_trans : forall a b c, R a b -> R b c -> R a c.

Lemma respects_ret {A} (a : A) : respects R (ret a).
Proof using R_refl. intros st c st' [= <- <-]. right. apply R_refl. Qed.

Lemma respects_throw {A} e : respects R (@throw A e).
Proof using R_refl. intros st c st' [= <- <-]. right. apply R_refl. Qed.

Lemma respects_beyond {A} : respects R (@beyond A).
Proof. intros st c st' [= <- <-]. left. reflexivity. Qed.

Lemma respects_this : respects R this.
Proof using R_refl. intros st c st' [= <- <-]. right. apply R_refl. Qed.

Lemma respects_bind {A B} (m : Handler A) (k : A -> Handler B) :
  respects R m -> (forall a, respects R (k a)) -> respects R (bind m k).
Proof using R_trans.
  intros Hm Hk st c st'. unfold bind.
  destruct (m st) as [[a|e|] st1] eqn:E; intros Hrun.
  - destruct (Hm _ _ _ E) as [?|H1]; [discriminate|].
    destruct (Hk a _ _ _ Hrun) as [?|H2]; [left; assumption|].
    right. eapply R_trans; eassumption.
  - injection Hrun as <- <-. destruct (Hm _ _ _ E) as [?|H1]; [discriminate|].
    right. exact H1.
  - injection Hrun as <- <-. left. reflexivity.
Qed.

(** A read hands its continuation the property itself. *)
Lemma respects_bind_read {B} (v : jsval) (k : string) (f : jsval -> Handler B) :
  respects R (f (prop v k)) -> respects R (bind (read v k) f).
Proof using R_refl.
  intros Hf st c st'. unfold bind, read.
  destruct v; simpl; try (intros Hrun; exact (Hf _ _ _ Hrun));
    intros [= <- <-]; right; apply R_refl.
Qed.

Lemma respects_when (b : bool) (m : Handler unit) :
  respects R m -> respects R (when b m).
Proof using R_refl. destruct b; [trivial|intros _; apply respects_ret]. Qed.

Lemma respects_of_option {A} (o : option A) : respects R (of_option o).
Proof using R_refl. destruct o; [apply respects_ret|apply respects_beyond]. Qed.

Lemma respects_for_each {A} (body : A -> Handler unit) (l : list A) :
  (forall x, respects R (body x)) -> respects R (for_each body l).
Proof using R_refl R_trans.
  intros Hbody. induction l as [|x l IH]; simpl.
  - apply respects_ret.
  - apply respects_bind; [apply Hbody|intros _; exact IH].
Qed.

Lemma respects_shortenPath (path : jsval) : respects R (shortenPath path).
Proof using R_refl.
  unfold shortenPath. destruct (negb (truthy path)); [apply respects_ret|].
  destruct path; try apply respects_throw.
  destruct (2 <? _); apply respects_ret.
Qed.

(** What is left to show for a given [R]: what it makes of an emitted event
    that is no text delta, of a text delta appended together with its event,
    and of the identity latch. *)
Hypothesis R_emit : forall e, texts [e] = [] -> respects R (emit e).
Hypothesis R_text : forall v, respects R (append_output v ;; emit (E_text v)).
Hypothesis R_latch : forall data, respects R (latch_sessionId data).

Lemma respects_handle_tool_use (block : jsval) : respects R (handle_tool_use block).
Proof using All.
  unfold handle_tool_use.
  apply respects_bind.
  - repeat match goal with
      | |- respects _ (if ?b then _ else _) => destruct b
      | |- respects _ (bind (shortenPath _) _) =>
          apply respects_bind; [apply respects_shortenPath|intros ?]
      | |- respects _ (ret _) => apply respects_ret
      | |- respects _ (match ?v with _ => _ end) => destruct v
      | |- respects _ (throw _) => apply respects_throw
      end.
  - intros status. apply respects_bind; [|intros _]; apply R_emit; reflexivity.
Qed.

Lemma respects_handle_block (block : jsval) : respects R (handle_block block).
Proof using All.
  unfold handle_block. apply respects_bind_read.
  destruct (js_is _ "text"); [apply R_text|].
  destruct (js_is _ "thinking"); [apply R_emit; reflexivity|].
  destruct (js_is _ "tool_use"); [apply respects_handle_tool_use|].
  apply respects_ret.
Qed.

Lemma respects_for_blocks (content : jsval) : respects R (for_blocks content).
Proof using All.
  destruct content; simpl; try apply respects_throw; [apply respects_ret|].
  apply respects_for_each, respects_handle_block.
Qed.

(** Every branch of the switch but [result]. *)
Lemma respects_handle_data (data : jsval) :
  js_is (prop data "type") "result" = false -> respects R (handle_data data).
Proof using All.
  intros Hres. unfold handle_data. apply respects_bind_read.
  destruct (js_is _ "system").
  { apply respects_when, respects_bind; [apply R_latch|intros _].
    apply R_emit; reflexivity. }
  destruct (js_is _ "assistant").
  { apply respects_bind; [|intros _; apply R_latch].
    apply respects_when, respects_for_blocks. }
  destruct (js_is _ "content_block_start").
  { destruct (_ && _).
    - apply respects_bind; [apply respects_of_option|intros ?].
      apply R_emit; reflexivity.
    - destruct (_ && _); [apply R_emit; reflexivity|apply respects_ret]. }
  destruct (js_is _ "content_block_delta").
  { apply respects_when. destruct (_ && _); [apply R_emit; reflexivity|].
    destruct (_ && _); [apply R_text|apply respects_ret]. }
  rewrite Hres. apply R_emit; reflexivity.
Qed.

End Respects.

(** ** The accumulated output *)
Section Output.
Context `{rt : Runtime}.

Lemma texts_app (a b : list event) : texts (a ++ b) = texts a ++ texts b.
Proof.
  induction a as [|e a IH]; [reflexivity|].
  destruct e; simpl; rewrite IH; reflexivity.
Qed.

Lemma concat_texts_app (start : jsval) (a b : list jsval) :
  concat_texts start (a ++ b)
  = match concat_texts start a with
    | Some mid => concat_texts mid b
    | None => None
    end.
Proof.
  revert start. induction a as [|t a IH]; intros start; [reflexivity|].
  simpl. destruct (js_add start t); [apply IH|reflexivity].
Qed.

(** On strings the sum is the concatenation. *)
Lemma concat_texts_strings (start : jstring) (ss : list jstring) :
  concat_texts (JStr start) (map JStr ss) = Some (JStr (start ++ concat ss)).
Proof.
  revert start. induction ss as [|x ss IH]; intros start; simpl.
  - rewrite app_nil_r. reflexivity.
  - rewrite IH, app_assoc. reflexivity.
Qed.

Lemma Extends_refl st : Extends st st.
Proof. exists []. rewrite app_nil_r. split; reflexivity. Qed.

Lemma Extends_trans a b c : Extends a b -> Extends b c -> Extends a c.
Proof.
  intros (n1 & E1 & C1) (n2 & E2 & C2). exists (n1 ++ n2). split.
  - rewrite E2, E1, app_assoc. reflexivity.
  - rewrite texts_app, concat_texts_app, C1. exact C2.
Qed.

Lemma Extends_emit e : texts [e] = [] -> respects Extends (emit e).
Proof.
  intros He st c st' [= <- <-]. right. exists [e]. simpl hs_emitted.
  split; [reflexivity|]. rewrite He. reflexivity.
Qed.

Lemma Extends_text v : respects Extends (append_output v ;; emit (E_text v)).
Proof.
  intros st c st'. unfold append_output, bind, this, of_option, update, emit.
  destruct (js_add (currentOutput (hs_this st)) v) as [sum|] eqn:E; simpl.
  - intros [= <- <-]. right. exists [E_text v]. simpl. rewrite E. split; reflexivity.
  - intros [= <- <-]. left. reflexivity.
Qed.

Lemma Extends_latch data : respects Extends (latch_sessionId data).
Proof.
  intros st c st'. unfold latch_sessionId, bind, this, when, update, emit, ret.
  destruct (_ && _); simpl; intros [= <- <-]; right.
  - exists [E_session (prop data "session_id")]. split; reflexivity.
  - apply Extends_refl.
Qed.

(** A [result] record runs through its branch without a throw. *)
Lemma handle_data_result (data : jsval) (st : hstate) :
  js_is (prop data "type") "result" = true ->
  handle_data data st
  = (Normal tt,
     {| hs_this :=
          (if truthy (prop data "session_id")
           then set_sessionId (prop data "session_id") else fun s => s)
            ((if truthy (prop data "result")
              then set_currentOutput (prop data "result") else fun s => s)
               (hs_this st));
        hs_emitted := hs_emitted st ++ [E_result data] |}).
Proof.
  intros Hres. unfold handle_data.
  destruct data; cbn [prop js_is] in Hres; try discriminate Hres.
  unfold read, bind at 1. cbn [prop] in *.
  destruct (field (lit "type") fields) as [| | | |x| |];
    cbn [js_is] in Hres; try discriminate Hres.
  apply bool_decide_eq_true in Hres. subst x.
  change (js_is (JStr (lit "result")) "system") with false.
  change (js_is (JStr (lit "result")) "assistant") with false.
  change (js_is (JStr (lit "result")) "content_block_start") with false.
  change (js_is (JStr (lit "result")) "content_block_delta") with false.
  change (js_is (JStr (lit "result")) "result") with true.
  cbv iota. unfold bind, when, update, emit, ret.
  destruct (truthy (field (lit "result") fields));
    destruct (truthy (field (lit "session_id") fields)); destruct st; reflexivity.
Qed.

(** One line: a result record carrying output replaces the output and emits
    no text delta; any other line appends its text deltas. *)
Lemma handleJsonLine_output (s s' : ClaudeSession) (line : jstring)
    (evs : list event) :
  handleJsonLine s line = Some (s', evs) ->
  match JSON_parse line ≫= carried_output with
  | Some v => currentOutput s' = v /\ texts evs = []
  | None => concat_texts (currentOutput s) (texts evs) = Some (currentOutput s')
  end.
Proof.
  unfold handleJsonLine. destruct (JSON_parse line) as [data|]; simpl.
  2:{ intros [= <- <-]. reflexivity. }
  unfold carried_output.
  destruct (js_is (prop data "type") "result") eqn:Hres.
  - rewrite (handle_data_result data _ Hres). simpl.
    intros [= <- <-]. destruct (truthy (prop data "result")); simpl.
    + destruct (truthy (prop data "session_id")); split; reflexivity.
    + destruct (truthy (prop data "session_id")); reflexivity.
  - simpl. pose proof (respects_handle_data Extends Extends_refl Extends_trans
      Extends_emit Extends_text Extends_latch data Hres) as Hr.
    destruct (handle_data data _) as [[[]|e|] st] eqn:E; try discriminate;
      intros [= <- <-]; destruct (Hr _ _ _ E) as [?|(new & Hev & Hout)];
      try discriminate; simpl in Hev, Hout; rewrite Hev.
    + exact Hout.
    + rewrite texts_app. simpl. rewrite app_nil_r. exact Hout.
Qed.

Lemma decoded_bind (line : jstring) (f : jsval -> option jsval) :
  truthy (JStr (trim line)) = true ->
  JSON_parse (trim line) ≫= f
  = match decoded line with Some data => f data | None => None end.
Proof. intros Ht. unfold decoded. rewrite Ht. reflexivity. Qed.

(** A run of lines none of which carries final output: the output grows by
    the text deltas. *)
Lemma handle_lines_output (s s' : ClaudeSession) (lines : list jstring)
    (evs : list event) :
  handle_lines s lines = Some (s', evs) ->
  Forall (fun l => final_output l = None) lines ->
  concat_texts (currentOutput s) (texts evs) = Some (currentOutput s').
Proof.
  revert s evs. induction lines as [|l lines IH]; intros s evs.
  - intros [= <- <-] _. reflexivity.
  - cbn [handle_lines]. intros Hrun Hall.
    apply Forall_cons_1 in Hall as [Hl Hall].
    destruct (truthy (JStr (trim l))) eqn:Ht; [|exact (IH _ _ Hrun Hall)].
    destruct (handleJsonLine s (trim l)) as [[s1 e1]|] eqn:E1; [|discriminate].
    destruct (handle_lines s1 lines) as [[s2 e2]|] eqn:E2; [|discriminate].
    injection Hrun as <- <-.
    pose proof (handleJsonLine_output _ _ _ _ E1) as Hline.
    rewrite (decoded_bind l carried_output Ht) in Hline.
    unfold final_output in Hl. rewrite Hl in Hline.
    rewrite texts_app, concat_texts_app, Hline. exact (IH _ _ E2 Hall).
Qed.

(** A run of lines ending in one that carries final output. *)
Lemma handle_lines_final (s s' : ClaudeSession) (pre : list jstring)
    (r : jstring) (v : jsval) (evs : list event) :
  handle_lines s (pre ++ [r]) = Some (s', evs) ->
  final_output r = Some v ->
  currentOutput s' = v.
Proof.
  rewrite handle_lines_app.
  destruct (handle_lines s pre) as [[s1 e1]|]; [|discriminate].
  cbn [handle_lines]. intros Hrun Hfin.
  assert (Ht : truthy (JStr (trim r)) = true).
  { unfold final_output, decoded in Hfin.
    destruct (truthy (JStr (trim r))); [reflexivity|discriminate]. }
  rewrite Ht in Hrun.
  destruct (handleJsonLine s1 (trim r)) as [[s2 e2]|] eqn:E; [|discriminate].
  injection Hrun as <- <-.
  pose proof (handleJsonLine_output _ _ _ _ E) as Hline.
  rewrite (decoded_bind r carried_output Ht) in Hline.
  unfold final_output in Hfin. rewrite Hfin in Hline. apply Hline.
Qed.

End Output.

(** ** What the decoder leaves alone, and the identity token *)
Section Identity.
Context `{rt : Runtime}.


Lemma emit_any (R : hstate -> hstate -> Prop) e :
  (forall st, R st {| hs_this := hs_this st; hs_emitted := hs_emitted st ++ [e] |}) ->
  respects R (emit e).
Proof. intros HR st c st' [= <- <-]. right. apply HR. Qed.

Lemma text_any (R : hstate -> hstate -> Prop) v :
  (forall st sum,
     R st {| hs_this := set_currentOutput sum (hs_this st);
             hs_emitted := hs_emitted st ++ [E_text v] |}) ->
  respects R (append_output v ;; emit (E_text v)).
Proof.
  intros HR st c st'. unfold append_output, bind, this, of_option, update, emit.
  destruct (js_add (currentOutput (hs_this st)) v) as [sum|]; simpl;
    intros [= <- <-]; [right; apply HR|left; reflexivity].
Qed.

Lemma Frame_latch data : respects Frame (latch_sessionId data).
Proof.
  intros st c st'. unfold latch_sessionId, bind, this, when, update, emit, ret.
  destruct (_ && _); simpl; intros [= <- <-]; right; reflexivity.
Qed.


(** Decoding a line never touches the fields that steer the turn. *)
Lemma handleJsonLine_control (s s' : ClaudeSession) (line : jstring)
    (evs : list event) :
  handleJsonLine s line = Some (s', evs) -> control s' = control s.
Proof.
  unfold handleJsonLine. destruct (JSON_parse line) as [data|].
  2:{ intros [= <- <-]. reflexivity. }
  destruct (js_is (prop data "type") "result") eqn:Hres.
  - rewrite (handle_data_result data _ Hres). intros [= <- <-]. simpl.
    destruct (truthy (prop data "session_id"));
      destruct (truthy (prop data "result")); reflexivity.
  - assert (Hr : respects Frame (handle_data data)).
    { apply respects_handle_data; try exact Hres.
      - intros st. reflexivity.
      - unfold Frame. intros a b c Hab Hbc. congruence.
      - intros e _. apply emit_any. intros st. reflexivity.
      - intros v. apply text_any. intros st sum. reflexivity.
      - apply Frame_latch. }
    destruct (handle_data data _) as [[[]|e|] st] eqn:E; try discriminate;
      intros [= <- <-]; destruct (Hr _ _ _ E) as [?|Hf]; try discriminate;
      exact Hf.
Qed.

Lemma handle_lines_control (s s' : ClaudeSession) (lines : list jstring)
    (evs : list event) :
  handle_lines s lines = Some (s', evs) -> control s' = control s.
Proof.
  revert s evs. induction lines as [|l lines IH]; intros s evs.
  - intros [= <- <-]. reflexivity.
  - cbn [handle_lines]. destruct (truthy (JStr (trim l))); [|apply IH].
    destruct (handleJsonLine s (trim l)) as [[s1 e1]|] eqn:E1; [|discriminate].
    destruct (handle_lines s1 lines) as [[s2 e2]|] eqn:E2; [|discriminate].
    intros [= <- <-]. rewrite (IH _ _ E2). exact (handleJsonLine_control _ _ _ _ E1).
Qed.



End Identity.

(** ** Turns: send and the handlers that settle it *)
Section Turns.
Context `{rt : Runtime}.

Lemma run_app (w : World) (a b : list input) :
  run w (a ++ b)
  = match run w a with
    | Some (w1, r1) =>
        match run w1 b with
        | Some (w2, r2) => Some (w2, r1 ++ r2)
        | None => None
        end
    | None => None
    end.
Proof.
  revert w. induction a as [|i a IH]; intros w.
  - simpl. destruct (run w b) as [[w2 r2]|]; reflexivity.
  - rewrite <- app_comm_cons. cbn [run].
    destruct (step w i) as [[w1 r1]|]; [|reflexivity].
    rewrite IH. destruct (run w1 a) as [[w2 r2]|]; [|reflexivity].
    destruct (run w2 b) as [[w3 r3]|]; [|reflexivity].
    rewrite app_assoc. reflexivity.
Qed.

Lemma feed_control (s s' : ClaudeSession) (buffer text buffer' : jstring)
    (evs : list event) :
  feed s buffer text = Some (s', buffer', evs) -> control s' = control s.
Proof.
  unfold feed. destruct (handle_lines _ _) as [[s1 e1]|] eqn:E; [|discriminate].
  intros [= <- <- <-]. exact (handle_lines_control _ _ _ _ E).
Qed.

Lemma control_isProcessing (s s' : ClaudeSession) :
  control s' = control s -> isProcessing s' = isProcessing s.
Proof. unfold control. intros [= _ _ _ -> _ _ _]. reflexivity. Qed.

(** A step that ends no turn leaves [isProcessing] as it is, unless it is an
    accepted [send]. *)
Lemma step_quiet (w w' : World) (i : input) (rs : list send_result) :
  quiet i = true -> is_send i = false -> step w i = Some (w', rs) ->
  isProcessing (session w') = isProcessing (session w) /\ rs = [].
Proof.
  destruct i; try discriminate; intros _ _; cbn [step].
  - unfold on_stdout. destruct (buffers w !! pid) as [buffer|].
    + destruct (feed _ _ _) as [[[s1 b1] e1]|] eqn:E; [|discriminate].
      simpl. intros [= <- <-]. split; [|reflexivity].
      apply control_isProcessing, (feed_control _ _ _ _ _ _ E).
    + simpl. intros [= <- <-]. split; reflexivity.
  - intros [= <- <-]. split; reflexivity.
  - intros [= <- <-]. split; [|reflexivity]. unfold on_timeout.
    case_bool_decide; [|reflexivity]. simpl.
    destruct (process (session w)); [|reflexivity]. simpl.
    destruct (pendingReject (session w)); reflexivity.
Qed.

Lemma send_busy (w : World) (message : jsval) :
  isProcessing (session w) = true ->
  send w message = (w, RejectedAtOnce AlreadyProcessing).
Proof. intros Hb. unfold send. rewrite Hb. reflexivity. Qed.

Lemma send_idle (w : World) (message : jsval) :
  isProcessing (session w) = false ->
  exists w1, send w message = (w1, Pending (next_handle w))
    /\ isProcessing (session w1) = true
    /\ pendingResolve (session w1) = Some (next_handle w)
    /\ pendingReject (session w1) = Some (next_handle w)
    /\ process (session w1) = Some (next_handle w)
    /\ timeoutId (session w1) = Some (next_handle w)
    /\ currentOutput (session w1) = JStr []
    /\ sessionId (session w1) = sessionId (session w)
    /\ buffers w1 !! next_handle w = Some []
    /\ next_handle w ∈ timers w1
    /\ settled w1 = settled w
    /\ emitted w1 = emitted w.
Proof.
  intros Hi. unfold send. rewrite Hi. eexists. split; [reflexivity|].
  simpl. repeat split; try reflexivity.
  - apply lookup_insert_eq.
  - set_solver.
Qed.

(** While a turn is in flight, inputs that end no turn get every [send]
    rejected. *)
Lemma run_busy (w w' : World) (inputs : list input) (rs : list send_result) :
  isProcessing (session w) = true ->
  forallb quiet inputs = true ->
  run w inputs = Some (w', rs) ->
  accepted rs = 0 /\ rejected_busy rs = sends inputs
  /\ isProcessing (session w') = true.
Proof.
  revert w rs. induction inputs as [|i inputs IH]; intros w rs Hb Hq.
  - intros [= <- <-]. repeat split; assumption.
  - cbn [run]. cbn [forallb] in Hq. apply andb_true_iff in Hq as [Hqi Hq].
    destruct (step w i) as [[w1 r1]|] eqn:E1; [|discriminate].
    destruct (run w1 inputs) as [[w2 r2]|] eqn:E2; [|discriminate].
    intros [= <- <-]. unfold accepted, rejected_busy, sends in *.
    rewrite !List.filter_app, !length_app. cbn [List.filter].
    destruct (is_send i) eqn:Hs.
    + destruct i; try discriminate. cbn [step] in E1.
      rewrite (send_busy w message Hb) in E1. injection E1 as <- <-.
      destruct (IH _ _ Hb Hq E2) as (Ha & Hr & Hp). simpl.
      repeat split; try lia; exact Hp.
    + destruct (step_quiet _ _ _ _ Hqi Hs E1) as [Hp ->].
      rewrite Hb in Hp. destruct (IH _ _ Hp Hq E2) as (Ha & Hr & Hp'). simpl.
      repeat split; try lia; exact Hp'.
Qed.

(** C1. A [send] on a session whose turn is in flight is rejected at once
    with AlreadyProcessing and changes nothing, so the input is kept
    nowhere; and of the [send] calls that reach an idle session before its
    turn ends, however they interleave with output, stderr and timer
    events, exactly one is accepted and all others are rejected that way. *)
Theorem send_single_flight (busy w w' : World) (message : jsval)
    (inputs : list input) (rs : list send_result) :
  (isProcessing (session busy) = true ->
   send busy message = (busy, RejectedAtOnce AlreadyProcessing))
  /\ (isProcessing (session w) = false ->
      forallb quiet inputs = true ->
      run w inputs = Some (w', rs) ->
      1 <= sends inputs ->
      accepted rs = 1 /\ rejected_busy rs = sends inputs - 1).
Proof.
  split; [apply send_busy|].
  revert w rs. induction inputs as [|i inputs IH]; intros w rs Hi Hq.
  - intros _ Hn. unfold sends in Hn. simpl in Hn. lia.
  - cbn [run]. cbn [forallb] in Hq. apply andb_true_iff in Hq as [Hqi Hq].
    destruct (step w i) as [[w1 r1]|] eqn:E1; [|discriminate].
    destruct (run w1 inputs) as [[w2 r2]|] eqn:E2; [|discriminate].
    intros [= <- <-]. unfold accepted, rejected_busy, sends in *.
    rewrite !List.filter_app, !length_app. cbn [List.filter].
    destruct (is_send i) eqn:Hs.
    + destruct i; try discriminate. cbn [step] in E1.
      destruct (send_idle w message0 Hi) as (w1' & Hsend & Hb & _).
      rewrite Hsend in E1. injection E1 as <- <-.
      destruct (run_busy _ _ _ _ Hb Hq E2) as (Ha & Hr & _).
      unfold accepted, rejected_busy, sends in *. simpl. lia.
    + destruct (step_quiet _ _ _ _ Hqi Hs E1) as [Hp ->].
      rewrite Hi in Hp. intros Hn. simpl in Hn |- *.
      apply (IH _ _ Hp Hq E2). exact Hn.
Qed.




Lemma control_pending (s s' : ClaudeSession) :
  control s' = control s ->
  pendingResolve s' = pendingResolve s /\ pendingReject s' = pendingReject s.
Proof. unfold control. intros [= _ _ _ _ -> -> _]. split; reflexivity. Qed.

Ltac fresh_goal :=
  unfold handles_fresh; simpl;
  repeat match goal with
    | |- _ /\ _ => split
    | |- forall p, None = Some p -> _ => discriminate
    | |- forall p, _ = Some p -> _ => intros ? ?; congruence
    | |- Forall _ (_ ++ [_]) =>
        apply Forall_app; split; [assumption|];
        constructor; [simpl; auto|constructor]
    | _ => assumption
    end.

Lemma step_fresh (w w' : World) (i : input) (rs : list send_result) :
  handles_fresh w -> step w i = Some (w', rs) -> handles_fresh w'.
Proof.
  intros (Hs & Hres & Hrej). destruct i; cbn [step].
  - unfold send. destruct (isProcessing (session w)).
    + intros [= <- <-]. repeat split; assumption.
    + intros [= <- <-]. unfold handles_fresh. simpl. repeat split.
      * eapply Forall_impl; [exact Hs|]. simpl. intros; lia.
      * intros p [= <-]. lia.
      * intros p [= <-]. lia.
  - unfold on_stdout. destruct (buffers w !! pid) as [buffer|].
    + destruct (feed _ _ _) as [[[s1 b1] e1]|] eqn:E; [|discriminate].
      simpl. intros [= <- <-].
      destruct (control_pending _ _ (feed_control _ _ _ _ _ _ E)) as [E1 E2].
      unfold handles_fresh. simpl. rewrite E1, E2. repeat split; assumption.
    + simpl. intros [= <- <-]. repeat split; assumption.
  - intros [= <- <-]. repeat split; assumption.
  - intros [= <- <-]. unfold on_close, clearTimeout. simpl.
    destruct (timeoutId (session w)); simpl;
      destruct (pendingResolve (session w)) as [p|] eqn:Ep; fresh_goal.
  - intros [= <- <-]. unfold on_error, clearTimeout. simpl.
    destruct (timeoutId (session w)); simpl;
      destruct (pendingReject (session w)) as [p|] eqn:Ep; fresh_goal.
  - intros [= <- <-]. unfold on_timeout.
    case_bool_decide; simpl; [|repeat split; assumption].
    destruct (process (session w)); simpl; [|repeat split; assumption].
    destruct (pendingReject (session w)) as [p|] eqn:Ep; fresh_goal.
  - intros [= <- <-]. unfold kill, clearTimeout.
    destruct (process (session w)); simpl;
      destruct (timeoutId (session w)); fresh_goal.
Qed.

Lemma run_fresh (w w' : World) (inputs : list input) (rs : list send_result) :
  handles_fresh w -> run w inputs = Some (w', rs) -> handles_fresh w'.
Proof.
  revert w rs. induction inputs as [|i inputs IH]; intros w rs Hf.
  - intros [= <- <-]. exact Hf.
  - cbn [run]. destruct (step w i) as [[w1 r1]|] eqn:E1; [|discriminate].
    destruct (run w1 inputs) as [[w2 r2]|] eqn:E2; [|discriminate].
    intros [= <- <-]. exact (IH _ _ (step_fresh _ _ _ _ Hf E1) E2).
Qed.

Lemma new_World_fresh (s : ClaudeSession) (model : jsval) :
  pendingResolve s = None -> pendingReject s = None ->
  handles_fresh (new_World s model).
Proof.
  intros Hres Hrej. unfold handles_fresh. simpl. rewrite Hres, Hrej.
  repeat split; [constructor|discriminate|discriminate].
Qed.

Lemma fresh_unsettled (w : World) :
  handles_fresh w -> settlements_of (next_handle w) w = [].
Proof.
  intros (Hs & _). unfold settlements_of.
  induction (settled w) as [|[q o] l IH]; [reflexivity|].
  apply Forall_cons_1 in Hs as [Hq Hs]. simpl in Hq |- *.
  destruct (Nat.eqb_spec q (next_handle w)); [lia|]. exact (IH Hs).
Qed.


(** Chunk-boundary invariance for any number of pieces. *)
Lemma feed_all_concat (s : ClaudeSession) (buffer t : jstring)
    (ts : list jstring) :
  feed_all s buffer (t :: ts) = feed s buffer (concat (t :: ts)).
Proof.
  revert s buffer t. induction ts as [|t' ts IH]; intros s buffer t.
  - cbn [feed_all concat]. rewrite app_nil_r.
    destruct (feed s buffer t) as [[[s1 b1] e1]|]; [|reflexivity].
    rewrite app_nil_r. reflexivity.
  - change (concat (t :: t' :: ts)) with (t ++ concat (t' :: ts)).
    rewrite feed_app. cbn [feed_all] in *.
    destruct (feed s buffer t) as [[[s1 b1] e1]|]; [|reflexivity].
    rewrite <- IH. reflexivity.
Qed.

(** Fed from an empty buffer, the chunks decode as the complete lines of
    their concatenation. *)
Lemma feed_all_lines (s s' : ClaudeSession) (ts : list jstring)
    (buffer' : jstring) (evs : list event) :
  feed_all s [] ts = Some (s', buffer', evs) ->
  handle_lines s (removelast (split NL (concat ts))) = Some (s', evs).
Proof.
  destruct ts as [|t ts].
  - intros [= <- <- <-]. reflexivity.
  - rewrite feed_all_concat. unfold feed. rewrite app_nil_l.
    destruct (handle_lines _ _) as [[s1 e1]|]; [|discriminate].
    intros [= <- <- <-]. reflexivity.
Qed.

Lemma feed_all_control (s s' : ClaudeSession) (buffer buffer' : jstring)
    (ts : list jstring) (evs : list event) :
  feed_all s buffer ts = Some (s', buffer', evs) -> control s' = control s.
Proof.
  revert s buffer evs. induction ts as [|t ts IH]; intros s buffer evs.
  - intros [= <- <- <-]. reflexivity.
  - cbn [feed_all].
    destruct (feed s buffer t) as [[[s1 b1] e1]|] eqn:E1; [|discriminate].
    destruct (feed_all s1 b1 ts) as [[[s2 b2] e2]|] eqn:E2; [|discriminate].
    intros [= <- <- <-]. rewrite (IH _ _ _ E2). exact (feed_control _ _ _ _ _ _ E1).
Qed.

(** A run of output chunks of one child is [feed_all] on what they decode
    to; nothing is settled meanwhile. *)
Lemma run_stdouts (w : World) (p : nat) (buffer : jstring)
    (chunks : list (list byte)) :
  buffers w !! p = Some buffer ->
  match feed_all (session w) buffer (map toString chunks) with
  | Some (s', buffer', evs) =>
      exists w', run w (map (In_stdout p) chunks) = Some (w', [])
        /\ session w' = s'
        /\ buffers w' !! p = Some buffer'
        /\ emitted w' = emitted w ++ evs
        /\ settled w' = settled w
  | None => run w (map (In_stdout p) chunks) = None
  end.
Proof.
  revert w buffer. induction chunks as [|c chunks IH]; intros w buffer Hbuf.
  - simpl. exists w. rewrite app_nil_r. repeat split; try reflexivity. exact Hbuf.
  - cbn [map feed_all run step]. unfold on_stdout. rewrite Hbuf.
    destruct (feed (session w) buffer (toString c)) as [[[s1 b1] e1]|];
      [|reflexivity].
    cbn [fmap option_fmap option_map].
    set (w1 := with_emitted e1 (with_buffer p b1 (with_session s1 w))).
    assert (Hb1 : buffers w1 !! p = Some b1) by apply lookup_insert_eq.
    specialize (IH w1 b1 Hb1). change (session w1) with s1 in IH.
    destruct (feed_all s1 b1 (map toString chunks)) as [[[s2 b2] e2]|].
    + destruct IH as (w2 & Hrun & Hs & Hb & He & Hset).
      exists w2. rewrite Hrun. repeat split; try assumption.
      rewrite He. simpl. rewrite app_assoc. reflexivity.
    + rewrite IH. reflexivity.
Qed.

(** ASCII bytes decode one by one, so decoding commutes with cutting a
    chunk after them. *)
Lemma toString_ascii_app (a b : list byte) :
  Forall (fun x => (Byte.to_N x <= 127)%N) a ->
  toString (a ++ b) = toString a ++ toString b.
Proof.
  unfold toString. induction 1 as [|x a Hx _ IH]; [reflexivity|].
  rewrite <- app_comm_cons. cbn [utf8_run]. unfold utf8_lead.
  apply N.leb_le in Hx. rewrite Hx. cbn [app]. rewrite IH. reflexivity.
Qed.

(** Chunk-boundary invariance of the stdout handler itself, wherever the
    boundary leaves the decoding of the two pieces unaffected. *)
Lemma on_stdout_split (w : World) (p : nat) (a b : list byte) :
  toString (a ++ b) = toString a ++ toString b ->
  on_stdout w p (a ++ b)
  = match on_stdout w p a with
    | Some w1 => on_stdout w1 p b
    | None => None
    end.
Proof.
  intros Hdec. unfold on_stdout at 1 2.
  destruct (buffers w !! p) as [buffer|] eqn:Hbuf.
  2:{ unfold on_stdout. rewrite Hbuf. reflexivity. }
  rewrite Hdec, feed_app.
  destruct (feed (session w) buffer (toString a)) as [[[s1 b1] e1]|];
    [|reflexivity].
  unfold on_stdout.
  cbn [buffers with_emitted with_buffer with_session session].
  rewrite lookup_insert_eq.
  destruct (feed s1 b1 (toString b)) as [[[s2 b2] e2]|]; [|reflexivity].
  unfold with_emitted, with_buffer, with_session. simpl.
  rewrite insert_insert_eq, app_assoc. reflexivity.
Qed.

(** C3. A turn that ends by the child's close resolves with the output. If
    no complete line of the child's output is a result record carrying
    final output, that output is the text deltas emitted during the turn,
    concatenated in arrival order; if the last complete line is such a
    record, the output is what the record carries, not the accumulated
    text. *)
Theorem turn_final_output (w0 w1 w2 : World) (message : jsval) (p : nat)
    (chunks : list (list byte)) (code : Z) (rs : list send_result) :
  send w0 message = (w1, Pending p) ->
  run w1 (map (In_stdout p) chunks ++ [In_close code]) = Some (w2, rs) ->
  let lines := removelast (split NL (concat (map toString chunks))) in
  exists (out sid : jsval) (evs : list event),
    settled w2 = settled w0 ++ [(p, Resolved out sid)]
    /\ emitted w2 = emitted w0 ++ evs
    /\ (Forall (fun l => final_output l = None) lines ->
        concat_texts (JStr []) (texts evs) = Some out)
    /\ (forall pre r v, lines = pre ++ [r] -> final_output r = Some v ->
        out = v).
Proof.
  intros Hsend Hrun lines.
  destruct (isProcessing (session w0)) eqn:Hi.
  { rewrite (send_busy w0 message Hi) in Hsend. discriminate. }
  destruct (send_idle w0 message Hi)
    as (w1' & Hs & _ & Hres & _ & _ & _ & Hout & _ & Hbuf & _ & Hset & Hem).
  rewrite Hs in Hsend. injection Hsend as -> <-.
  rewrite run_app in Hrun.
  pose proof (run_stdouts w1 (next_handle w0) [] chunks Hbuf) as Hfeed.
  destruct (feed_all (session w1) [] (map toString chunks))
    as [[[sa ba] evs]|] eqn:Efeed.
  2:{ rewrite Hfeed in Hrun. discriminate. }
  destruct Hfeed as (wa & Hra & Hsa & _ & Hema & Hseta).
  rewrite Hra in Hrun. cbn [run step] in Hrun. injection Hrun as <- <-.
  destruct (control_pending _ _ (feed_all_control _ _ _ _ _ _ Efeed)) as [Hp _].
  pose proof (feed_all_lines _ _ _ _ _ Efeed) as Hlines. fold lines in Hlines.
  exists (currentOutput sa), (sessionId sa), evs. split_and!.
  - unfold on_close, clearTimeout. simpl.
    destruct (timeoutId (session wa)); simpl; rewrite Hsa, Hp, Hres; simpl;
      congruence.
  - unfold on_close, clearTimeout. simpl.
    destruct (timeoutId (session wa)); simpl; rewrite Hsa, Hp, Hres; simpl;
      congruence.
  - intros Hall. rewrite <- Hout. exact (handle_lines_output _ _ _ _ Hlines Hall).
  - intros pre r v Hl Hfin. rewrite Hl in Hlines.
    exact (handle_lines_final _ _ _ _ _ _ Hlines Hfin).
Qed.

End Turns.

(** ** The registry *)
Section Registry.

(** Two keys built from channel ids free of the separator are equal only if
    their components are. *)
Lemma session_key_inj (c1 u1 c2 u2 : jstring) :
  UNDERSCORE ∉ c1 -> UNDERSCORE ∉ c2 ->
  session_key c1 u1 = session_key c2 u2 -> c1 = c2 /\ u1 = u2.
Proof.
  unfold session_key. change (lit "_") with [UNDERSCORE].
  revert c2. induction c1 as [|a c1 IH]; intros [|b c2] H1 H2; simpl.
  - intros [= ->]. split; reflexivity.
  - intros [= <- _]. exfalso. apply H2. left.
  - intros [= -> _]. exfalso. apply H1. left.
  - intros [= -> Hrest].
    destruct (IH c2) as [-> ->]; try exact Hrest; [| |split; reflexivity].
    + intros Hin. apply H1. right. exact Hin.
    + intros Hin. apply H2. right. exact Hin.
Qed.

(** C9, as amended. Registry operations on one key neither alter nor
    observe what is stored for another key whenever the two key strings
    channelId_userId differ: the session found under the other key is the
    same after the operation, and the operation's outcome is the same
    whatever is stored under the other key. *)
Theorem registry_keys_independent
    (sessions : gmap jstring ClaudeSession) (cwd c1 u1 c2 u2 : jstring)
    (options : session_options) (other : option ClaudeSession) :
  session_key c1 u1 <> session_key c2 u2 ->
  let sessions' := partial_alter (fun _ => other) (session_key c2 u2) sessions in
  getSession (getOrCreateSession sessions cwd c1 u1 options).1 c2 u2
  = getSession sessions c2 u2
  /\ getSession (removeSession sessions c1 u1).1.1 c2 u2
     = getSession sessions c2 u2
  /\ getSession sessions' c1 u1 = getSession sessions c1 u1
  /\ (getOrCreateSession sessions' cwd c1 u1 options).2
     = (getOrCreateSession sessions cwd c1 u1 options).2
  /\ (removeSession sessions' c1 u1).1.2 = (removeSession sessions c1 u1).1.2
  /\ (removeSession sessions' c1 u1).2 = (removeSession sessions c1 u1).2.
Proof.
  intros Hne sessions'.
  assert (Hother : sessions' !! session_key c1 u1 = sessions !! session_key c1 u1).
  { unfold sessions'. apply lookup_partial_alter_ne. congruence. }
  unfold getSession, getOrCreateSession, removeSession. simpl.
  rewrite Hother. split_and!; try reflexivity.
  - destruct (sessions !! session_key c1 u1); simpl;
      rewrite lookup_insert_ne by exact Hne; reflexivity.
  - rewrite lookup_delete_ne by exact Hne. reflexivity.
  - destruct (sessions !! session_key c1 u1); reflexivity.
Qed.

(** The PTY version's registry keeps keys apart under the same condition. *)
Lemma pty_registry_keys_independent
    (activeSessions : gmap jstring Pty.PtySession) (cwd c1 u1 c2 u2 : jstring)
    (now : Z) (handle : nat) (options : session_options) :
  session_key c1 u1 <> session_key c2 u2 ->
  Pty.getSession
    (Pty.getOrCreateSession activeSessions cwd now handle c1 u1 options).1 c2 u2
  = Pty.getSession activeSessions c2 u2
  /\ Pty.getSession (Pty.killSession activeSessions c1 u1).1.1 c2 u2
     = Pty.getSession activeSessions c2 u2.
Proof.
  intros Hne. unfold Pty.getSession, Pty.getOrCreateSession, Pty.killSession.
  split.
  - destruct (activeSessions !! session_key c1 u1) as [session|]; simpl;
      [destruct (Pty.isRunning session); simpl|];
      rewrite ?lookup_insert_ne by exact Hne; reflexivity.
  - destruct (activeSessions !! session_key c1 u1); simpl;
      rewrite ?lookup_delete_ne by exact Hne; reflexivity.
Qed.

End Registry.

(** ** The throttled reply *)
Section Throttle.





End Throttle.

(** ** The model and the properties at work on sample inputs *)
Section Samples.

Example bash_status :
  option_map snd
    (handleJsonLine (rt := node) (new_ClaudeSession [] no_options)
       (json "{'type':'assistant','message':{'content':[{'type':'tool_use','name':'Bash','input':{'command':'ls -la'}}]}}"))
  = Some [E_tool_use (JStr (lit "Bash"))
            (JObj [(lit "command", JStr (lit "ls -la"))])
            (JStr (lit "Running: ls -la"));
          E_status (JStr (lit "Running: ls -la"))].
Proof. vm_compute. reflexivity. Qed.

Example read_status :
  option_map snd
    (handleJsonLine (rt := node) (new_ClaudeSession [] no_options)
       (json "{'type':'assistant','message':{'content':[{'type':'tool_use','name':'Read','input':{'file_path':'src/utils/formatter.js'}}]}}"))
  = Some [E_tool_use (JStr (lit "Read"))
            (JObj [(lit "file_path", JStr (lit "src/utils/formatter.js"))])
            (JStr (lit "Reading .../utils/formatter.js"));
          E_status (JStr (lit "Reading .../utils/formatter.js"))].
Proof. vm_compute. reflexivity. Qed.

(** A [null] among the content blocks throws inside the loop: the text
    before it stays appended, and the catch reports the line. *)
Example null_block_is_caught :
  let line := json "{'type':'assistant','message':{'content':[{'type':'text','text':'a'},null]},'session_id':'s'}" in
  handleJsonLine (rt := node) (new_ClaudeSession [] no_options) line
  = Some (set_currentOutput (JStr (lit "a")) (new_ClaudeSession [] no_options),
          [E_text (JStr (lit "a")); E_parse_error line TypeError]).
Proof. vm_compute. reflexivity. Qed.

Example toString_euro :
  toString [xe2; x82; xac] = [8364%N]
  /\ toString [xe2; x82] = [REPLACEMENT]
  /\ toString [xf0; x9f; x92; xad] = [55357%N; 56493%N].
Proof. repeat split; vm_compute; reflexivity. Qed.

Example stream_of_three_lines :
  option_map (fun r => (currentOutput r.1, sessionId r.1))
    (handle_lines (rt := node) (new_ClaudeSession [] no_options)
       [init_line; assistant_line; lit "   "; result_line])
  = Some (JStr (lit "done"), JStr (lit "third")).
Proof. vm_compute. reflexivity. Qed.


Lemma send_single_flight_witness :
  let busy := (send sample_world (JStr (lit "one"))).1 in
  let inputs := [In_send (JStr (lit "one")); In_stdout 0 text_chunk;
                 In_send (JStr (lit "two")); In_timeout 0;
                 In_send (JStr (lit "three"))] in
  (isProcessing (session busy) = true
   /\ send busy (JStr (lit "two")) = (busy, RejectedAtOnce AlreadyProcessing))
  /\ exists w' rs,
       isProcessing (session sample_world) = false
       /\ forallb quiet inputs = true
       /\ run (rt := node) sample_world inputs = Some (w', rs)
       /\ 1 <= sends inputs
       /\ accepted rs = 1 /\ rejected_busy rs = sends inputs - 1.
Proof.
  intros busy inputs. split.
  - split; [reflexivity|].
    apply (send_single_flight (rt := node) busy sample_world sample_world
             (JStr (lit "two")) [] []). reflexivity.
  - eexists _, _. split; [reflexivity|]. split; [reflexivity|].
    split; [vm_compute; reflexivity|]. split; [vm_compute; lia|].
    eapply (send_single_flight (rt := node) busy sample_world _
              (JStr (lit "two")) inputs _).
    + reflexivity.
    + reflexivity.
    + vm_compute. reflexivity.
    + vm_compute. lia.
Defined.

(** C2, at the failing input. The stdout handler decodes each chunk's bytes
    on their own, so a record whose text holds a two-byte character decodes
    to that character when it arrives whole, and to two replacement
    characters when the chunk boundary falls between the two bytes: the
    same byte stream, two event sequences. *)
Theorem chunk_split_inside_character :
  let w1 := (send sample_world (JStr (lit "hello"))).1 in
  option_map (fun r => emitted r.1)
    (run (rt := node) w1 [In_stdout 0 (accent_head ++ accent_tail)])
  = Some [E_text (JStr [233%N])]
  /\ option_map (fun r => emitted r.1)
       (run (rt := node) w1 [In_stdout 0 accent_head; In_stdout 0 accent_tail])
     = Some [E_text (JStr [REPLACEMENT; REPLACEMENT])].
Proof. split; vm_compute; reflexivity. Qed.

(** C6, at the failing input. A child that exits with code 1 while the turn
    is pending resolves the turn, with the output so far, as a success; the
    exit code plays no part. A close with nothing pending settles
    nothing. *)
Theorem nonzero_exit_resolves_turn :
  let w1 := (send sample_world (JStr (lit "hello"))).1 in
  option_map (fun r => settled r.1)
    (run (rt := node) w1 [In_stdout 0 text_chunk; In_close 1])
  = Some [(0, Resolved (JStr (lit "partial")) JNull)]
  /\ (forall w code, on_close w code = on_close w 0)
  /\ settled (on_close sample_world 0) = [].
Proof. split; [vm_compute; reflexivity|]. split; reflexivity. Qed.

Lemma turn_final_output_witness :
  exists w1 w2 rs,
    send sample_world (JStr (lit "hello")) = (w1, Pending 0)
    /\ run (rt := node) w1
         (map (In_stdout 0) [text_chunk; result_chunk] ++ [In_close 0])
       = Some (w2, rs)
    /\ exists out sid evs,
         settled w2 = settled sample_world ++ [(0, Resolved out sid)]
         /\ emitted w2 = emitted sample_world ++ evs
         /\ (Forall (fun l => final_output (rt := node) l = None)
               (removelast
                  (split NL (concat (map toString [text_chunk; result_chunk])))) ->
             concat_texts (JStr []) (texts evs) = Some out)
         /\ (forall pre r v,
               removelast
                 (split NL (concat (map toString [text_chunk; result_chunk])))
               = pre ++ [r] ->
               final_output (rt := node) r = Some v -> out = v).
Proof.
  eexists _, _, _. split; [reflexivity|]. split; [vm_compute; reflexivity|].
  eapply (turn_final_output (rt := node) sample_world _ _ (JStr (lit "hello")) 0
            [text_chunk; result_chunk] 0 _).
  - reflexivity.
  - vm_compute. reflexivity.
Defined.




Lemma malformed_line_is_skipped_witness :
  let s := new_ClaudeSession [] no_options in
  trim malformed_line <> []
  /\ JSON_parse (Runtime := node) (trim malformed_line) = None
  /\ handleJsonLine (rt := node) s (trim malformed_line)
     = Some (s, [E_parse_error (trim malformed_line) SyntaxError])
  /\ handle_lines (rt := node) s ([init_line] ++ malformed_line :: [assistant_line])
     = match handle_lines (rt := node) s [init_line] with
       | Some (s1, e1) =>
           match handle_lines (rt := node) s1 [assistant_line] with
           | Some (s2, e2) =>
               Some (s2, e1 ++ E_parse_error (trim malformed_line) SyntaxError :: e2)
           | None => None
           end
       | None => None
       end
  /\ handle_lines (rt := node) s ([init_line] ++ [assistant_line])
     = match handle_lines (rt := node) s [init_line] with
       | Some (s1, e1) =>
           match handle_lines (rt := node) s1 [assistant_line] with
           | Some (s2, e2) => Some (s2, e1 ++ e2)
           | None => None
           end
       | None => None
       end.
Proof.
  intros s.
  assert (H1 : trim malformed_line <> []) by (vm_compute; discriminate).
  assert (H2 : JSON_parse (Runtime := node) (trim malformed_line) = None)
    by (vm_compute; reflexivity).
  split; [exact H1|]. split; [exact H2|].
  exact (malformed_line_is_skipped (rt := node) s [init_line] [assistant_line]
           malformed_line H1 H2).
Defined.



(** C9 as stated fails: the keys ("a_b", "c") and ("a", "b_c") are distinct
    and render to the same string, so the session created for the first is
    found under the second, and removing the second removes it. *)
Lemma colliding_keys_share_a_session :
  let created :=
    (getOrCreateSession ∅ (lit "/work") (lit "a_b") (lit "c") no_options).1 in
  (lit "a_b", lit "c") <> (lit "a", lit "b_c")
  /\ getSession ∅ (lit "a") (lit "b_c") = None
  /\ getSession created (lit "a") (lit "b_c")
     = Some (new_ClaudeSession (lit "/work") no_options)
  /\ getSession (removeSession created (lit "a") (lit "b_c")).1.1
       (lit "a_b") (lit "c") = None.
Proof.
  intros created. split; [discriminate|]. split; [reflexivity|].
  split; vm_compute; reflexivity.
Qed.

Lemma registry_keys_independent_witness :
  let sessions :=
    (getOrCreateSession ∅ (lit "/work") (lit "111") (lit "333") no_options).1 in
  session_key (lit "111") (lit "222") <> session_key (lit "111") (lit "333")
  /\ getSession
       (getOrCreateSession sessions (lit "/work") (lit "111") (lit "222")
          no_options).1 (lit "111") (lit "333")
     = getSession sessions (lit "111") (lit "333")
  /\ getSession (removeSession sessions (lit "111") (lit "222")).1.1
       (lit "111") (lit "333")
     = getSession sessions (lit "111") (lit "333").
Proof.
  intros sessions.
  assert (Hne : session_key (lit "111") (lit "222")
                <> session_key (lit "111") (lit "333"))
    by (vm_compute; discriminate).
  split; [exact Hne|].
  destruct (registry_keys_independent sessions (lit "/work")
              (lit "111") (lit "222") (lit "111") (lit "333") no_options None Hne)
    as (H1 & H2 & _).
  split; [exact H1|exact H2].
Defined.

End Samples.

(** ** Turns under every interleaving *)
Section Interleavings.
Context `{rt : Runtime}.

Lemma on_stdout_frame (w w' : World) (pid : nat) (data : list byte) :
  on_stdout w pid data = Some w' ->
  control (session w') = control (session w)
  /\ settled w' = settled w /\ timers w' = timers w
  /\ signals w' = signals w /\ spawned w' = spawned w
  /\ next_handle w' = next_handle w.
Proof.
  unfold on_stdout. destruct (buffers w !! pid) as [buffer|].
  - destruct (feed _ _ _) as [[[s1 b1] e1]|] eqn:E; [|discriminate].
    intros [= <-]. simpl. split_and!; try reflexivity.
    exact (feed_control _ _ _ _ _ _ E).
  - intros [= <-]. split_and!; reflexivity.
Qed.

Lemma step_at_most_once (w w' : World) (i : input) (rs : list send_result) :
  handles_fresh w -> settled_at_most_once w ->
  step w i = Some (w', rs) -> settled_at_most_once w'.
Proof.
  intros (Hs & Hres & _) (Heq & Hnd & Hnew).
  assert (Hsnoc : forall p o, pendingResolve (session w) = Some p ->
            NoDup (map fst (settled w ++ [(p, o)]))).
  { intros p o Hp. rewrite map_app. cbn [map fst]. apply NoDup_app. split_and!.
    - exact Hnd.
    - intros x Hx ->%list_elem_of_singleton. exact (Hnew _ Hp Hx).
    - apply NoDup_singleton. }
  destruct i; cbn [step].
  - unfold send. destruct (isProcessing (session w)).
    + intros [= <- <-]. split_and!; assumption.
    + intros [= <- <-]. unfold settled_at_most_once. simpl.
      split_and!; [reflexivity|exact Hnd|].
      intros p [= <-] Hin. apply list_elem_of_fmap in Hin as ([q o] & Hq & Hin).
      simpl in Hq. subst q. rewrite Forall_forall in Hs.
      specialize (Hs _ Hin). simpl in Hs. lia.
  - intros Hrun. destruct (on_stdout w pid data) as [w1|] eqn:E; [|discriminate].
    simpl in Hrun. injection Hrun as <- <-.
    destruct (on_stdout_frame _ _ _ _ E) as (Hc & Hset & _).
    destruct (control_pending _ _ Hc) as [E1 E2].
    unfold settled_at_most_once. rewrite E1, E2, Hset. split_and!; assumption.
  - intros [= <- <-]. split_and!; assumption.
  - intros [= <- <-]. unfold on_close, clearTimeout, settled_at_most_once. simpl.
    destruct (timeoutId (session w)); simpl;
      destruct (pendingResolve (session w)) as [p|] eqn:Ep; simpl;
      split_and!; rewrite ?Ep; auto; try discriminate; try congruence.
  - intros [= <- <-]. unfold on_error, clearTimeout, settled_at_most_once. simpl.
    destruct (timeoutId (session w)); simpl;
      destruct (pendingReject (session w)) as [p|] eqn:Ep; simpl;
      split_and!; rewrite ?Ep; auto; try discriminate; try congruence.
  - intros [= <- <-]. unfold on_timeout, settled_at_most_once.
    case_bool_decide; simpl; [|split_and!; assumption].
    destruct (process (session w)); simpl; [|split_and!; assumption].
    destruct (pendingReject (session w)) as [p|] eqn:Ep; simpl;
      split_and!; rewrite ?Ep; auto; try discriminate; try congruence.
  - intros [= <- <-]. unfold kill, clearTimeout, settled_at_most_once.
    destruct (process (session w)); simpl;
      destruct (timeoutId (session w)); simpl; split_and!; assumption.
Qed.

Lemma run_at_most_once (w w' : World) (inputs : list input)
    (rs : list send_result) :
  handles_fresh w -> settled_at_most_once w ->
  run w inputs = Some (w', rs) -> settled_at_most_once w'.
Proof.
  revert w rs. induction inputs as [|i inputs IH]; intros w rs Hf Hinv.
  - intros [= <- <-]. exact Hinv.
  - cbn [run]. destruct (step w i) as [[w1 r1]|] eqn:E1; [|discriminate].
    destruct (run w1 inputs) as [[w2 r2]|] eqn:E2; [|discriminate].
    intros [= <- <-].
    exact (IH _ _ (step_fresh _ _ _ _ Hf E1)
             (step_at_most_once _ _ _ _ Hf Hinv E1) E2).
Qed.

Lemma NoDup_keys_filter (l : list (nat * settlement)) (p : nat) :
  NoDup (map fst l) -> length (List.filter (fun x => fst x =? p) l) <= 1.
Proof.
  induction l as [|[q o] l IH]; simpl; [lia|].
  intros Hnd. apply NoDup_cons in Hnd as [Hq Hnd].
  destruct (Nat.eqb_spec q p) as [->|Hne]; [|exact (IH Hnd)].
  simpl. assert (Hnone : List.filter (fun x => fst x =? p) l = []).
  { clear IH Hnd. induction l as [|[q' o'] l IH']; [reflexivity|]. simpl.
    destruct (Nat.eqb_spec q' p) as [->|Hne].
    - exfalso. apply Hq. simpl. left.
    - apply IH'. intros Hin. apply Hq. simpl. right. exact Hin. }
  rewrite Hnone. simpl. lia.
Qed.

(** X1. Whatever happens to a session from its creation on (sends, output,
    close and error events, timers, kills, in any order), no promise
    returned by [send] is ever settled twice. *)
Theorem no_promise_settled_twice (options : session_options) (cwd : jstring)
    (model : jsval) (inputs : list input) (w : World)
    (rs : list send_result) (p : nat) :
  run (new_World (new_ClaudeSession cwd options) model) inputs = Some (w, rs) ->
  length (settlements_of p w) <= 1.
Proof.
  intros Hrun.
  assert (Hinv : settled_at_most_once w).
  { eapply run_at_most_once; [| |exact Hrun].
    - apply new_World_fresh; reflexivity.
    - unfold settled_at_most_once. simpl. split_and!;
        [reflexivity|apply NoDup_nil; exact I|discriminate]. }
  destruct Hinv as (_ & Hnd & _). unfold settlements_of.
  rewrite length_map. apply NoDup_keys_filter, Hnd.
Qed.

Lemma settlements_snoc_other (l : list (nat * settlement)) (p q : nat)
    (o : settlement) :
  q <> p ->
  map snd (List.filter (fun x => fst x =? p) (l ++ [(q, o)]))
  = map snd (List.filter (fun x => fst x =? p) l).
Proof.
  intros Hne. rewrite List.filter_app. simpl.
  destruct (Nat.eqb_spec q p); [contradiction|]. rewrite app_nil_r. reflexivity.
Qed.

(** Once the object has let go of a promise, nothing settles it. *)
Lemma step_forgotten (w w' : World) (i : input) (rs : list send_result)
    (p : nat) :
  forgotten p w -> step w i = Some (w', rs) ->
  forgotten p w' /\ settlements_of p w' = settlements_of p w.
Proof.
  intros (Hlt & Hres & Hrej). destruct i; cbn [step].
  - unfold send. destruct (isProcessing (session w)).
    + intros [= <- <-]. repeat split; assumption.
    + intros [= <- <-]. unfold forgotten, settlements_of. simpl.
      split_and!; try reflexivity; try lia; intros [= ?]; lia.
  - intros Hrun. destruct (on_stdout w pid data) as [w1|] eqn:E; [|discriminate].
    simpl in Hrun. injection Hrun as <- <-.
    destruct (on_stdout_frame _ _ _ _ E) as (Hc & Hset & _ & _ & _ & Hn).
    destruct (control_pending _ _ Hc) as [E1 E2].
    unfold forgotten, settlements_of. rewrite E1, E2, Hset, Hn.
    repeat split; assumption.
  - intros [= <- <-]. repeat split; assumption.
  - intros [= <- <-]. unfold on_close, clearTimeout, forgotten. simpl.
    destruct (timeoutId (session w)); simpl;
      destruct (pendingResolve (session w)) as [q|] eqn:Eq; simpl;
      split_and!; try assumption; try discriminate; try reflexivity;
      try congruence;
      unfold settlements_of; simpl; apply settlements_snoc_other; congruence.
  - intros [= <- <-]. unfold on_error, clearTimeout, forgotten. simpl.
    destruct (timeoutId (session w)); simpl;
      destruct (pendingReject (session w)) as [q|] eqn:Eq; simpl;
      split_and!; try assumption; try discriminate; try reflexivity;
      try congruence;
      unfold settlements_of; simpl; apply settlements_snoc_other; congruence.
  - intros [= <- <-]. unfold on_timeout, forgotten.
    case_bool_decide; simpl; [|repeat split; assumption].
    destruct (process (session w)); simpl; [|repeat split; assumption].
    destruct (pendingReject (session w)) as [q|] eqn:Eq; simpl;
      split_and!; try assumption; try discriminate; try reflexivity;
      try congruence;
      unfold settlements_of; simpl; apply settlements_snoc_other; congruence.
  - intros [= <- <-]. unfold kill, clearTimeout, forgotten.
    destruct (process (session w)); simpl;
      destruct (timeoutId (session w)); simpl; repeat split; assumption.
Qed.

Lemma run_forgotten (w w' : World) (inputs : list input)
    (rs : list send_result) (p : nat) :
  forgotten p w -> run w inputs = Some (w', rs) ->
  settlements_of p w' = settlements_of p w.
Proof.
  revert w rs. induction inputs as [|i inputs IH]; intros w rs Hf.
  - intros [= <- <-]. reflexivity.
  - cbn [run]. destruct (step w i) as [[w1 r1]|] eqn:E1; [|discriminate].
    destruct (run w1 inputs) as [[w2 r2]|] eqn:E2; [|discriminate].
    intros [= <- <-]. destruct (step_forgotten _ _ _ _ _ Hf E1) as [Hf1 Hs1].
    rewrite (IH _ _ Hf1 E2). exact Hs1.
Qed.

(** X2. [kill()] followed by a new [send] on the same object abandons the
    killed turn: the new call is accepted and takes over the pending
    functions, and whatever happens afterwards the promise of the killed
    turn is never settled. *)
Theorem killed_turn_is_never_settled (options : session_options)
    (cwd : jstring) (model : jsval) (history rest : list input)
    (rs0 rs : list send_result) (w0 w1 w2 : World) (message message' : jsval)
    (p : nat) :
  run (new_World (new_ClaudeSession cwd options) model) history
  = Some (w0, rs0) ->
  send w0 message = (w1, Pending p) ->
  run w1 (In_kill :: In_send message' :: rest) = Some (w2, rs) ->
  (exists rs', rs = Pending (S p) :: rs') /\ settlements_of p w2 = [].
Proof.
  intros Hhist Hsend Hrun.
  assert (Hfresh : handles_fresh w0).
  { eapply run_fresh; [|exact Hhist]. apply new_World_fresh; reflexivity. }
  pose proof (fresh_unsettled w0 Hfresh) as Hnone.
  unfold send in Hsend. destruct (isProcessing (session w0)); [discriminate|].
  injection Hsend as <- <-.
  cbn [run step] in Hrun.
  set (wk := kill _) in Hrun.
  assert (Hidle : isProcessing (session wk) = false).
  { unfold wk, kill, clearTimeout. simpl. reflexivity. }
  assert (Hnext : next_handle wk = S (next_handle w0)).
  { unfold wk, kill, clearTimeout. simpl. reflexivity. }
  assert (Hset : settled wk = settled w0).
  { unfold wk, kill, clearTimeout. simpl. reflexivity. }
  unfold send in Hrun. rewrite Hidle, Hnext in Hrun.
  match type of Hrun with
  | context [run ?wb rest] => set (ws := wb) in Hrun
  end.
  destruct (run ws rest) as [[w3 r3]|] eqn:Erest; [|discriminate].
  injection Hrun as <- <-. split; [eexists; reflexivity|].
  assert (Hlost : forgotten (next_handle w0) ws).
  { unfold forgotten, ws. simpl. split_and!; [lia| |]; intros [= ?]; lia. }
  rewrite (run_forgotten _ _ _ _ _ Hlost Erest).
  assert (Hsets : settled ws = settled w0) by exact Hset.
  unfold settlements_of in *. rewrite Hsets. exact Hnone.
Qed.

(** X3. A turn that times out is rejected and its child is signalled, but
    the session stays busy: until the child's close event arrives every
    further [send] is rejected with AlreadyProcessing; the close then frees
    the session and settles nothing more. *)
Theorem timed_out_session_stays_busy (w : World) (message message' : jsval)
    (code : Z) :
  isProcessing (session w) = false ->
  let p := next_handle w in
  let w2 := on_timeout (send w message).1 p in
  settled w2 = settled w ++ [(p, Rejected ResponseTimeout)]
  /\ signals w2 = signals w ++ [p]
  /\ send w2 message' = (w2, RejectedAtOnce AlreadyProcessing)
  /\ settled (on_close w2 code) = settled w2
  /\ isProcessing (session (on_close w2 code)) = false.
Proof.
  intros Hidle p w2. unfold w2, send. rewrite Hidle. cbn [fst].
  unfold on_timeout. cbn [timers].
  rewrite bool_decide_eq_true_2
    by (apply elem_of_union_l, elem_of_singleton; reflexivity).
  simpl. split_and!; reflexivity.
Qed.

(** X4. [kill()] signals the child and frees the session but settles
    nothing; the promise of the killed turn is settled by the close event
    that follows, and as a success carrying the output so far. *)
Theorem killed_turn_resolves_on_close (w : World) (p pid : nat) (code : Z) :
  pendingResolve (session w) = Some p ->
  process (session w) = Some pid ->
  settled (kill w) = settled w
  /\ signals (kill w) = signals w ++ [pid]
  /\ isProcessing (session (kill w)) = false
  /\ settled (on_close (kill w) code)
     = settled w
       ++ [(p, Resolved (currentOutput (session w)) (sessionId (session w)))].
Proof.
  intros Hres Hproc. unfold kill, clearTimeout. rewrite Hproc. simpl.
  destruct (timeoutId (session w)) eqn:Et; simpl; split_and!; try reflexivity;
    unfold on_close, clearTimeout; simpl; rewrite Et; simpl; rewrite Hres;
    reflexivity.
Qed.

Lemma run_outputs_frame (w w' : World) (inputs : list input)
    (rs : list send_result) :
  forallb is_output inputs = true ->
  run w inputs = Some (w', rs) ->
  rs = []
  /\ control (session w') = control (session w)
  /\ settled w' = settled w /\ timers w' = timers w
  /\ signals w' = signals w /\ spawned w' = spawned w.
Proof.
  revert w rs. induction inputs as [|i inputs IH]; intros w rs Hall.
  - intros [= <- <-]. split_and!; reflexivity.
  - cbn [forallb] in Hall. apply andb_true_iff in Hall as [Hi Hall].
    cbn [run]. destruct (step w i) as [[w1 r1]|] eqn:E1; [|discriminate].
    destruct (run w1 inputs) as [[w2 r2]|] eqn:E2; [|discriminate].
    intros [= <- <-]. destruct (IH _ _ Hall E2) as (-> & Hc & Hs & Ht & Hg & Hp).
    destruct i; try discriminate Hi; cbn [step] in E1.
    + destruct (on_stdout w pid data) as [wx|] eqn:E; [|discriminate].
      simpl in E1. injection E1 as <- <-.
      destruct (on_stdout_frame _ _ _ _ E) as (Hc' & Hs' & Ht' & Hg' & Hp' & _).
      split_and!; [reflexivity|congruence..].
    + injection E1 as <- <-. split_and!; [reflexivity|assumption..].
Qed.

(** X5. Nothing the child writes, on stdout or stderr, well-formed or not,
    ends or frees a turn: after any run of output chunks the fields that
    steer the turn, the settled promises, the timers, the signals sent and
    the children spawned are what they were. *)
Theorem child_output_never_ends_a_turn (w w' : World) (inputs : list input)
    (rs : list send_result) :
  forallb is_output inputs = true ->
  run w inputs = Some (w', rs) ->
  isProcessing (session w') = isProcessing (session w)
  /\ pendingResolve (session w') = pendingResolve (session w)
  /\ pendingReject (session w') = pendingReject (session w)
  /\ process (session w') = process (session w)
  /\ timeoutId (session w') = timeoutId (session w)
  /\ settled w' = settled w /\ timers w' = timers w
  /\ signals w' = signals w /\ spawned w' = spawned w.
Proof.
  intros Hall Hrun.
  destruct (run_outputs_frame _ _ _ _ Hall Hrun) as (_ & Hc & Hs & Ht & Hg & Hp).
  unfold control in Hc. injection Hc as _ _ -> -> -> -> ->.
  split_and!; try reflexivity; assumption.
Qed.

Lemma split_no_separator (sep : N) (s : jstring) :
  sep ∉ s -> split sep s = [s].
Proof.
  induction s as [|c s IH]; [reflexivity|]. intros Hnot.
  apply not_elem_of_cons in Hnot as [Hc Hs]. simpl.
  destruct (N.eqb_spec c sep) as [->|_]; [contradiction|].
  rewrite (IH Hs). reflexivity.
Qed.

(** X6. A record is decoded only once its newline has arrived, and the close
    handler does not flush the buffer: if all the child ever writes holds no
    newline, the turn emits no event at all and resolves with empty
    output, whatever the bytes were. *)
Theorem unterminated_record_is_dropped (w0 w1 : World) (message : jsval)
    (p : nat) (data : list byte) (code : Z) :
  send w0 message = (w1, Pending p) ->
  NL ∉ toString data ->
  exists w2,
    run w1 [In_stdout p data; In_close code] = Some (w2, [])
    /\ emitted w2 = emitted w0
    /\ buffers w2 !! p = Some (toString data)
    /\ settled w2
       = settled w0 ++ [(p, Resolved (JStr []) (sessionId (session w0)))].
Proof.
  intros Hsend Hnl.
  destruct (isProcessing (session w0)) eqn:Hi.
  { rewrite (send_busy w0 message Hi) in Hsend. discriminate. }
  unfold send in Hsend. rewrite Hi in Hsend. injection Hsend as <- <-.
  cbn [run step]. unfold on_stdout. cbn [buffers]. rewrite lookup_insert_eq.
  unfold feed. rewrite app_nil_l, (split_no_separator _ _ Hnl).
  cbn [removelast handle_lines List.last fmap option_fmap option_map].
  eexists. split; [reflexivity|]. unfold on_close, clearTimeout. simpl.
  split_and!; try reflexivity.
  - apply app_nil_r.
  - apply lookup_insert_eq.
Qed.

(** X7. On streams of ASCII bytes the stdout handler is chunk-boundary
    invariant at the byte level: one child's output handed over in any
    number of chunks leaves the same world, events included, as the same
    bytes handed over in one chunk. *)
Theorem ascii_stream_chunking (w : World) (p : nat) (chunk : list byte)
    (chunks : list (list byte)) :
  Forall (Forall is_ascii) (chunk :: chunks) ->
  run w (map (In_stdout p) (chunk :: chunks))
  = run w [In_stdout p (concat (chunk :: chunks))].
Proof.
  revert w chunk. induction chunks as [|c' chunks IH]; intros w chunk Hall.
  - cbn [concat]. rewrite app_nil_r. reflexivity.
  - apply Forall_cons_1 in Hall as [Hc Hall].
    change (concat (chunk :: c' :: chunks)) with (chunk ++ concat (c' :: chunks)).
    change (map (In_stdout p) (chunk :: c' :: chunks))
      with (In_stdout p chunk :: map (In_stdout p) (c' :: chunks)).
    cbn [run step] in *.
    rewrite (on_stdout_split w p chunk _ (toString_ascii_app _ _ Hc)).
    destruct (on_stdout w p chunk) as [w1|]; [|reflexivity].
    cbn [fmap option_fmap option_map].
    rewrite (IH w1 c' Hall).
    destruct (on_stdout w1 p (concat (c' :: chunks))) as [w2|]; reflexivity.
Qed.

End Interleavings.

(** ** More on the stream handler *)
Section Handler.
Context `{rt : Runtime}.

(** The branches of the switch once more, for relations that tell the
    identity announcement from the other events. *)
Section PlainSteps.

Variable R : hstate -> hstate -> Prop.
Hypothesis R_refl : forall st, R st st.
Hypothesis R_trans : forall a b c, R a b -> R b c -> R a c.
Hypothesis R_plain : forall e, is_plain e = true -> respects R (emit e).
Hypothesis R_text : forall v, respects R (append_output v ;; emit (E_text v)).
Hypothesis R_latch : forall data, respects R (latch_sessionId data).

Lemma plain_handle_tool_use (block : jsval) : respects R (handle_tool_use block).
Proof using All.
  unfold handle_tool_use. apply (respects_bind R R_trans).
  - repeat match goal with
      | |- respects _ (if ?b then _ else _) => destruct b
      | |- respects _ (bind (shortenPath _) _) =>
          apply (respects_bind R R_trans);
          [apply (respects_shortenPath R R_refl)|intros ?]
      | |- respects _ (ret _) => apply (respects_ret R R_refl)
      | |- respects _ (match ?v with _ => _ end) => destruct v
      | |- respects _ (throw _) => apply (respects_throw R R_refl)
      end.
  - intros status. apply (respects_bind R R_trans); [|intros _];
      apply R_plain; reflexivity.
Qed.

Lemma plain_handle_block (block : jsval) : respects R (handle_block block).
Proof using All.
  unfold handle_block. apply (respects_bind_read R R_refl).
  destruct (js_is _ "text"); [apply R_text|].
  destruct (js_is _ "thinking"); [apply R_plain; reflexivity|].
  destruct (js_is _ "tool_use"); [apply plain_handle_tool_use|].
  apply (respects_ret R R_refl).
Qed.

Lemma plain_for_blocks (content : jsval) : respects R (for_blocks content).
Proof using All.
  destruct content; simpl; try apply (respects_throw R R_refl);
    [apply (respects_ret R R_refl)|].
  apply (respects_for_each R R_refl R_trans), plain_handle_block.
Qed.

Lemma plain_handle_data (data : jsval) :
  js_is (prop data "type") "result" = false -> respects R (handle_data data).
Proof using All.
  intros Hres. unfold handle_data. apply (respects_bind_read R R_refl).
  destruct (js_is _ "system").
  { apply (respects_when R R_refl), (respects_bind R R_trans);
      [apply R_latch|intros _]. apply R_plain; reflexivity. }
  destruct (js_is _ "assistant").
  { apply (respects_bind R R_trans); [|intros _; apply R_latch].
    apply (respects_when R R_refl), plain_for_blocks. }
  destruct (js_is _ "content_block_start").
  { destruct (_ && _).
    - apply (respects_bind R R_trans);
        [apply (respects_of_option R R_refl)|intros ?].
      apply R_plain; reflexivity.
    - destruct (_ && _); [apply R_plain; reflexivity|apply (respects_ret R R_refl)]. }
  destruct (js_is _ "content_block_delta").
  { apply (respects_when R R_refl).
    destruct (_ && _); [apply R_plain; reflexivity|].
    destruct (_ && _); [apply R_text|apply (respects_ret R R_refl)]. }
  rewrite Hres. apply R_plain; reflexivity.
Qed.

End PlainSteps.

Lemma announcements_app (a b : list event) :
  announcements (a ++ b) = announcements a + announcements b.
Proof. unfold announcements. rewrite List.filter_app, length_app. reflexivity. Qed.

Lemma Announced_refl (s : ClaudeSession) : Announced s [] s.
Proof.
  unfold Announced, announcements. destruct (truthy (sessionId s)) eqn:E; simpl.
  - split; reflexivity.
  - split; [lia|discriminate].
Qed.

Lemma Announced_trans (s s1 s2 : ClaudeSession) (e1 e2 : list event) :
  Announced s e1 s1 -> Announced s1 e2 s2 -> Announced s (e1 ++ e2) s2.
Proof.
  unfold Announced. rewrite announcements_app.
  destruct (truthy (sessionId s)).
  - intros [H1 ->] [H2 H3]. split; [lia|exact H3].
  - destruct (truthy (sessionId s1)) eqn:E1.
    + intros [H1 _] [H2 H3]. split; [lia|intros _; exact H3].
    + intros [H1 H1'] [H2 H2']. split; [|intros Hone].
      * destruct (decide (announcements e1 = 1)) as [Hy|Hn]; [|lia].
        discriminate (H1' Hy).
      * apply H2'. destruct (decide (announcements e1 = 1)) as [Hy|Hn]; [|lia].
        discriminate (H1' Hy).
Qed.

Lemma Announces_refl st : Announces st st.
Proof. exists []. rewrite app_nil_r. split; [reflexivity|apply Announced_refl]. Qed.

Lemma Announces_trans a b c : Announces a b -> Announces b c -> Announces a c.
Proof.
  intros (n1 & E1 & A1) (n2 & E2 & A2). exists (n1 ++ n2). split.
  - rewrite E2, E1, app_assoc. reflexivity.
  - exact (Announced_trans _ _ _ _ _ A1 A2).
Qed.

Lemma Announced_same_id (s s' : ClaudeSession) (e : event) :
  is_session e = false -> sessionId s' = sessionId s -> Announced s [e] s'.
Proof.
  intros He Hid. unfold Announced, announcements. simpl. rewrite He, Hid. simpl.
  destruct (truthy (sessionId s)) eqn:E; split; try lia; auto; discriminate.
Qed.

Lemma Announces_plain e : is_plain e = true -> respects Announces (emit e).
Proof.
  intros He st c st' [= <- <-]. right. exists [e]. split; [reflexivity|].
  apply Announced_same_id; [destruct e; try discriminate; reflexivity|reflexivity].
Qed.

Lemma Announces_text v :
  respects Announces (append_output v ;; emit (E_text v)).
Proof.
  apply text_any. intros st sum. exists [E_text v]. split; [reflexivity|].
  apply Announced_same_id; reflexivity.
Qed.

Lemma Announces_latch data : respects Announces (latch_sessionId data).
Proof.
  intros st c st'. unfold latch_sessionId, bind, this, when, update, emit, ret.
  destruct (truthy (prop data "session_id")) eqn:Hnew;
    destruct (truthy (sessionId (hs_this st))) eqn:Hold; simpl;
    intros [= <- <-]; right; try apply Announces_refl.
  exists [E_session (prop data "session_id")]. split; [reflexivity|].
  unfold Announced, announcements. simpl. rewrite Hold. split; [lia|auto].
Qed.

Lemma handleJsonLine_announced (s s' : ClaudeSession) (line : jstring)
    (evs : list event) :
  handleJsonLine s line = Some (s', evs) -> Announced s evs s'.
Proof.
  unfold handleJsonLine. destruct (JSON_parse line) as [data|].
  2:{ intros [= <- <-]. apply Announced_same_id; reflexivity. }
  destruct (js_is (prop data "type") "result") eqn:Hres.
  - rewrite (handle_data_result data _ Hres). simpl. intros [= <- <-].
    unfold Announced, announcements. simpl.
    destruct (truthy (prop data "session_id")) eqn:Hn;
      destruct (truthy (prop data "result")); simpl;
      destruct (truthy (sessionId s)) eqn:Ho; split; auto; try lia;
      discriminate.
  - pose proof (plain_handle_data Announces Announces_refl Announces_trans
      Announces_plain Announces_text Announces_latch data Hres) as Hr.
    destruct (handle_data data _) as [[[]|e|] st] eqn:E; try discriminate;
      intros [= <- <-]; destruct (Hr _ _ _ E) as [?|(new & Hev & Ha)];
      try discriminate; simpl in Hev, Ha; rewrite Hev; [exact Ha|].
    eapply Announced_trans; [exact Ha|apply Announced_same_id; reflexivity].
Qed.

(** X8. Over any run of lines the identity is announced to the listeners
    (the 'session' event) at most once, and not at all when the session
    already holds an identity: in particular the identity a result record
    puts in place of a stored one is never announced. *)
Theorem identity_announced_at_most_once (s s' : ClaudeSession)
    (lines : list jstring) (evs : list event) :
  handle_lines s lines = Some (s', evs) ->
  announcements evs <= 1
  /\ (truthy (sessionId s) = true -> announcements evs = 0).
Proof.
  intros Hrun.
  assert (Ha : Announced s evs s').
  { revert s evs Hrun. induction lines as [|l lines IH]; intros s evs.
    - intros [= <- <-]. apply Announced_refl.
    - cbn [handle_lines]. destruct (truthy (JStr (trim l))); [|apply IH].
      destruct (handleJsonLine s (trim l)) as [[s1 e1]|] eqn:E1; [|discriminate].
      destruct (handle_lines s1 lines) as [[s2 e2]|] eqn:E2; [|discriminate].
      intros [= <- <-].
      exact (Announced_trans _ _ _ _ _ (handleJsonLine_announced _ _ _ _ E1)
               (IH _ _ E2)). }
  unfold Announced in Ha. destruct (truthy (sessionId s)).
  - destruct Ha as [Hz _]. split; [lia|intros _; exact Hz].
  - destruct Ha as [Hle _]. split; [exact Hle|discriminate].
Qed.

End Handler.

(** ** The status line of a tool call *)
Section Status.

Lemma join_split (sep : N) (s : jstring) : join [sep] (split sep s) = s.
Proof.
  induction s as [|c s IH]; [reflexivity|].
  pose proof (split_nonempty sep s) as Hne. simpl split.
  destruct (N.eqb_spec c sep) as [->|_].
  - destruct (split sep s) as [|l ls]; [congruence|].
    change (join [sep] ([] :: l :: ls)) with ([sep] ++ join [sep] (l :: ls)).
    rewrite IH. reflexivity.
  - destruct (split sep s) as [|l ls]; [congruence|].
    destruct ls as [|l' ls]; simpl in IH |- *; rewrite <- IH; reflexivity.
Qed.

Lemma split_parts (sep : N) (s : jstring) :
  Forall (fun part => sep ∉ part) (split sep s).
Proof.
  induction s as [|c s IH]; simpl.
  - constructor; [apply not_elem_of_nil|constructor].
  - destruct (N.eqb_spec c sep) as [->|Hc].
    + constructor; [apply not_elem_of_nil|exact IH].
    + destruct (split sep s) as [|l ls].
      { repeat constructor. apply not_elem_of_cons.
        split; [congruence|apply not_elem_of_nil]. }
      inversion IH; subst. constructor; [|assumption].
      apply not_elem_of_cons. split; [congruence|assumption].
Qed.

Lemma split_length (sep : N) (s : jstring) :
  length (split sep s) = S (length (List.filter (fun c => (c =? sep)%N) s)).
Proof.
  induction s as [|c s IH]; [reflexivity|].
  pose proof (split_nonempty sep s) as Hne. simpl.
  destruct (c =? sep)%N; simpl; [rewrite IH; reflexivity|].
  destruct (split sep s) as [|l ls]; [congruence|exact IH].
Qed.

Lemma separators_normalise (p : jstring) :
  length (List.filter (fun c => (c =? SLASH)%N) (normalise_separators p))
  = separators p.
Proof.
  unfold separators, normalise_separators.
  induction p as [|c p IH]; [reflexivity|]. simpl.
  destruct (N.eqb_spec c BACKSLASH) as [->|Hb]; simpl.
  - rewrite IH. reflexivity.
  - rewrite orb_false_r. destruct (c =? SLASH)%N; simpl; rewrite IH; reflexivity.
Qed.

Lemma normalise_no_backslash (p : jstring) :
  BACKSLASH ∉ normalise_separators p.
Proof.
  unfold normalise_separators. induction p as [|c p IH]; simpl.
  - apply not_elem_of_nil.
  - apply not_elem_of_cons. split; [|exact IH].
    destruct (N.eqb_spec c BACKSLASH) as [->|Hb]; [discriminate|congruence].
Qed.

Lemma join_app (sep : jstring) (l1 l2 : list jstring) :
  l1 <> [] -> l2 <> [] ->
  join sep (l1 ++ l2) = join sep l1 ++ sep ++ join sep l2.
Proof.
  intros H1 H2. induction l1 as [|a l1 IH]; [congruence|].
  destruct l1 as [|b l1].
  - destruct l2; [congruence|reflexivity].
  - change (join sep ((a :: b :: l1) ++ l2))
      with (a ++ sep ++ join sep ((b :: l1) ++ l2)).
    rewrite IH by discriminate.
    change (join sep (a :: b :: l1)) with (a ++ sep ++ join sep (b :: l1)).
    rewrite <- !app_assoc. reflexivity.
Qed.

(** X9. A path with fewer than two separators (of either kind) is shown as
    it is; a longer one as '.../' and its last two components: the normalised
    path ends in '/a/b' with [a] and [b] free of separators. *)
Theorem shortenPath_keeps_last_two (p : jstring) (st : hstate) :
  p <> [] ->
  if 2 <=? separators p then
    exists front a b,
      normalise_separators p = front ++ [SLASH] ++ a ++ [SLASH] ++ b
      /\ (SLASH ∉ a ++ b) /\ (BACKSLASH ∉ a ++ b)
      /\ shortenPath (JStr p) st
         = (Normal (lit ".../" ++ a ++ [SLASH] ++ b), st)
  else shortenPath (JStr p) st = (Normal p, st).
Proof.
  intros Hp. unfold shortenPath.
  assert (Ht : truthy (JStr p) = true) by (destruct p; [congruence|reflexivity]).
  rewrite Ht. cbn [negb].
  fold (normalise_separators p).
  pose proof (split_length SLASH (normalise_separators p)) as Hlen.
  rewrite separators_normalise in Hlen.
  pose proof (join_split SLASH (normalise_separators p)) as Hjoin.
  pose proof (split_parts SLASH (normalise_separators p)) as Hparts.
  pose proof (normalise_no_backslash p) as Hback.
  set (parts := split SLASH (normalise_separators p)) in *.
  destruct (Nat.leb_spec 2 (separators p)) as [Hge|Hlt].
  - replace (2 <? length parts) with true by (symmetry; apply Nat.ltb_lt; lia).
    rewrite <- (take_drop (length parts - 2) parts) in Hjoin, Hparts.
    assert (Hd : length (drop (length parts - 2) parts) = 2)
      by (rewrite length_drop; lia).
    destruct (drop (length parts - 2) parts) as [|a [|b [|? ?]]];
      try discriminate.
    rewrite join_app in Hjoin;
      [|intros E; apply (f_equal length) in E; rewrite length_take in E;
        simpl in E; lia|discriminate].
    apply Forall_app in Hparts as [_ Hab].
    inversion Hab as [|? ? Ha Hb']; subst. inversion Hb' as [|? ? Hb _]; subst.
    exists (join [SLASH] (take (length parts - 2) parts)), a, b.
    cbn [join] in Hjoin. rewrite <- Hjoin in Hback |- *.
    split_and!.
    + reflexivity.
    + rewrite not_elem_of_app. done.
    + repeat first [rewrite not_elem_of_app in Hback
                   |rewrite not_elem_of_cons in Hback].
      rewrite not_elem_of_app. tauto.
    + reflexivity.
  - replace (2 <? length parts) with false by (symmetry; apply Nat.ltb_ge; lia).
    reflexivity.
Qed.

(** X10. The status of a Bash call is 'Running: ' and the first 30 units of
    the command, followed by '...' exactly when the command is longer: at
    most 42 units, whatever the command. Both events carry it. *)
Theorem bash_status_is_bounded (block : jsval) (command : jstring)
    (st : hstate) :
  prop block "name" = JStr (lit "Bash") ->
  prop (prop block "input") "command" = JStr command ->
  command <> [] ->
  exists status,
    handle_tool_use block st
    = (Normal tt,
       {| hs_this := hs_this st;
          hs_emitted := hs_emitted st
            ++ [E_tool_use (JStr (lit "Bash")) (prop block "input") (JStr status);
                E_status (JStr status)] |})
    /\ length status <= 42
    /\ status = lit "Running: " ++ take 30 command
                ++ (if 30 <? length command then lit "..." else []).
Proof.
  intros Hname Hcmd Hne.
  exists (lit "Running: " ++ take 30 command
          ++ (if 30 <? length command then lit "..." else [])).
  split_and!; [|..|reflexivity].
  - unfold handle_tool_use. rewrite Hname.
    assert (Hin : js_or (prop block "input") (JObj []) = prop block "input").
    { unfold js_or. destruct (prop block "input"); try reflexivity;
        simpl in Hcmd; discriminate. }
    rewrite Hin, Hcmd.
    change (js_or (JStr (lit "Bash")) (JStr (lit "Tool"))) with (JStr (lit "Bash")).
    change (js_is (JStr (lit "Bash")) "Read") with false.
    change (js_is (JStr (lit "Bash")) "Write") with false.
    change (js_is (JStr (lit "Bash")) "Edit") with false.
    change (js_is (JStr (lit "Bash")) "Bash") with true.
    cbn [andb].
    assert (Ht : truthy (JStr command) = true)
      by (destruct command; [congruence|reflexivity]).
    rewrite Ht.
    assert (Hsub : substring command 0 30 = take 30 command).
    { unfold substring, clamp. change (Z.to_nat 0) with 0.
      rewrite Nat.min_0_l, Nat.max_0_l, Nat.sub_0_r, drop_0.
      change (Z.to_nat 30) with 30.
      destruct (Nat.le_gt_cases (length command) 30).
      - rewrite Nat.min_r by lia. rewrite !take_ge by lia. reflexivity.
      - rewrite Nat.min_l by lia. reflexivity. }
    cbv zeta. rewrite Hsub. unfold bind, ret, emit. simpl.
    rewrite <- app_assoc. reflexivity.
  - assert (Hrun : length (lit "Running: ") = 9) by reflexivity.
    assert (Hdots : length (lit "...") = 3) by reflexivity.
    rewrite !length_app, length_take, Hrun.
    destruct (30 <? length command); [rewrite Hdots|]; simpl length; lia.
Qed.

End Status.

(** ** The registries, key by key *)
Section Registries.

(** X11. What [getOrCreateSession] returns is what the registry then holds
    under the key; asking again with no options returns the same object and
    leaves the registry as it is; an identity given in the options is the
    returned session's, created or found; and a session found keeps its turn
    in progress. *)
Theorem getOrCreateSession_round_trip
    (sessions sessions' : gmap jstring ClaudeSession)
    (cwd cwd' channelId userId : jstring) (options : session_options)
    (s : ClaudeSession) :
  getOrCreateSession sessions cwd channelId userId options = (sessions', s) ->
  getSession sessions' channelId userId = Some s
  /\ getOrCreateSession sessions' cwd' channelId userId no_options
     = (sessions', s)
  /\ (truthy (opt_sessionId options) = true ->
      sessionId s = opt_sessionId options)
  /\ (forall old, getSession sessions channelId userId = Some old ->
      isProcessing s = isProcessing old
      /\ process s = process old
      /\ pendingResolve s = pendingResolve old
      /\ pendingReject s = pendingReject old
      /\ currentOutput s = currentOutput old
      /\ timeoutId s = timeoutId old).
Proof.
  unfold getOrCreateSession, getSession.
  destruct (sessions !! session_key channelId userId) as [old|] eqn:E;
    intros [= <- <-]; rewrite lookup_insert_eq; simpl;
    split_and!; try reflexivity; try (rewrite insert_insert_eq; reflexivity);
    try discriminate.
  - destruct (truthy (opt_sessionId options)); [|discriminate].
    intros _. destruct (truthy (opt_workingDir options)); reflexivity.
  - intros ? [= <-].
    destruct (truthy (opt_sessionId options));
      destruct (truthy (opt_workingDir options)); simpl; split_and!; reflexivity.
  - unfold js_or. intros ->. reflexivity.
Qed.

(** X12. After [removeSession] the registry holds nothing under the key: the
    result tells whether it did and the object killed is the one it held;
    removing again returns false and changes nothing; and the next
    [getOrCreateSession] starts from a new session, the identity gone. *)
Theorem removeSession_forgets
    (sessions sessions' : gmap jstring ClaudeSession)
    (cwd channelId userId : jstring)
    (killed : option (ClaudeSession * option nat * option nat)) (found : bool) :
  removeSession sessions channelId userId = (sessions', killed, found) ->
  getSession sessions' channelId userId = None
  /\ (found = true <-> is_Some (getSession sessions channelId userId))
  /\ killed = kill_object <$> getSession sessions channelId userId
  /\ removeSession sessions' channelId userId = (sessions', None, false)
  /\ (getOrCreateSession sessions' cwd channelId userId no_options).2
     = new_ClaudeSession cwd no_options.
Proof.
  unfold removeSession, getSession, getOrCreateSession. intros [= <- <- <-].
  rewrite !lookup_delete_eq. split_and!.
  - reflexivity.
  - apply bool_decide_eq_true.
  - reflexivity.
  - rewrite delete_delete_eq. reflexivity.
  - reflexivity.
Qed.

(** X13. The PTY registry never hands out a stopped session: what it returns
    runs and is what it then holds under the key. While that session runs
    every later call returns it and changes nothing, whatever options the
    call brings; a stopped one is replaced by a new session made from the
    call's options alone. *)
Theorem pty_getOrCreateSession_running
    (activeSessions sessions' : gmap jstring Pty.PtySession)
    (cwd cwd' channelId userId : jstring) (now now' : Z) (handle handle' : nat)
    (options options' : session_options) (s : Pty.PtySession) :
  Pty.getOrCreateSession activeSessions cwd now handle channelId userId options
  = (sessions', s) ->
  Pty.isRunning s = true
  /\ Pty.getSession sessions' channelId userId = Some s
  /\ Pty.getOrCreateSession sessions' cwd' now' handle' channelId userId options'
     = (sessions', s)
  /\ (forall old, Pty.getSession activeSessions channelId userId = Some old ->
      Pty.isRunning old = false ->
      Pty.sessionId s = js_or (opt_sessionId options) JNull
      /\ Pty.outputBuffer s = [] /\ Pty.lastActivity s = now).
Proof.
  unfold Pty.getOrCreateSession, Pty.getSession.
  destruct (activeSessions !! session_key channelId userId) as [old|] eqn:E;
    [destruct (Pty.isRunning old) eqn:Er|]; intros [= <- <-];
    rewrite ?lookup_insert_eq, ?E, ?Er; simpl; split_and!;
    try reflexivity; try assumption; try discriminate.
  - intros ? [= <-] Hstop. congruence.
  - intros ? [= <-] _. split_and!; reflexivity.
Qed.

Lemma sweep_no_stale (now : Z) (l : list (jstring * Pty.PtySession))
    (acc : gmap jstring Pty.PtySession * list Pty.PtySession) :
  Forall (fun entry => Pty.is_stale now entry.2 = false) l ->
  fold_left
    (fun acc entry =>
       if Pty.is_stale now entry.2
       then (delete entry.1 acc.1, acc.2 ++ [Pty.kill entry.2])
       else acc) l acc = acc.
Proof.
  induction 1 as [|entry l Hentry _ IH]; simpl; [reflexivity|].
  rewrite Hentry. exact IH.
Qed.

Lemma sweep_lookup (now : Z) (key : jstring)
    (l : list (jstring * Pty.PtySession))
    (acc : gmap jstring Pty.PtySession * list Pty.PtySession) :
  let swept :=
    fold_left
      (fun acc entry =>
         if Pty.is_stale now entry.2
         then (delete entry.1 acc.1, acc.2 ++ [Pty.kill entry.2])
         else acc) l acc in
  (acc.1 !! key = None -> swept.1 !! key = None)
  /\ ((forall s, (key, s) ∈ l -> Pty.is_stale now s = false) ->
      swept.1 !! key = acc.1 !! key)
  /\ (forall s, (key, s) ∈ l -> Pty.is_stale now s = true ->
      swept.1 !! key = None).
Proof.
  revert acc. induction l as [|[k s] l IH]; intros acc; simpl.
  { split_and!; [auto|auto|]. intros s Hin. apply elem_of_nil in Hin as []. }
  destruct (Pty.is_stale now s) eqn:Es.
  - destruct (IH (delete k acc.1, acc.2 ++ [Pty.kill s])) as (IH1 & IH2 & IH3).
    simpl in IH1, IH2, IH3. split_and!.
    + intros Hnone. apply IH1.
      destruct (decide (k = key)) as [->|Hk];
        [apply lookup_delete_eq|rewrite lookup_delete_ne by exact Hk; exact Hnone].
    + intros Hall. rewrite IH2.
      * apply lookup_delete_ne. intros ->.
        rewrite (Hall s) in Es by left. discriminate.
      * intros s' Hin. apply Hall. right. exact Hin.
    + intros s' Hin Hs'. apply elem_of_cons in Hin as [[= <- <-]|Hin].
      * apply IH1, lookup_delete_eq.
      * exact (IH3 s' Hin Hs').
  - destruct (IH acc) as (IH1 & IH2 & IH3). split_and!.
    + exact IH1.
    + intros Hall. apply IH2. intros s' Hin. apply Hall. right. exact Hin.
    + intros s' Hin Hs'. apply elem_of_cons in Hin as [[= <- <-]|Hin];
        [congruence|exact (IH3 s' Hin Hs')].
Qed.

(** X14. The sweep removes exactly the sessions idle for more than thirty
    minutes, running or not: a key keeps its session if and only if the
    session's last activity is at most 1800000 ms old, and sweeping again at
    the same instant removes nothing. *)
Theorem cleanupStaleSessions_sweeps
    (activeSessions : gmap jstring Pty.PtySession) (now : Z) (key : jstring) :
  let swept := (Pty.cleanupStaleSessions activeSessions now).1 in
  swept !! key
  = match activeSessions !! key with
    | Some s =>
        if (now - Pty.lastActivity s <=? 1800000)%Z then Some s else None
    | None => None
    end
  /\ Pty.cleanupStaleSessions swept now = (swept, []).
Proof.
  assert (Hlookup : forall key,
    (Pty.cleanupStaleSessions activeSessions now).1 !! key
    = match activeSessions !! key with
      | Some s => if Pty.is_stale now s then None else Some s
      | None => None
      end).
  { intros k. unfold Pty.cleanupStaleSessions.
    destruct (sweep_lookup now k (map_to_list activeSessions) (activeSessions, []))
      as (H1 & H2 & H3). simpl in H1, H2, H3.
    destruct (activeSessions !! k) as [s|] eqn:E; [|exact (H1 eq_refl)].
    destruct (Pty.is_stale now s) eqn:Es.
    - apply (H3 s); [apply elem_of_map_to_list; exact E|exact Es].
    - rewrite H2; [reflexivity|]. intros s' Hin.
      apply elem_of_map_to_list in Hin. congruence. }
  intros swept. split.
  - subst swept. rewrite Hlookup. destruct (activeSessions !! key) as [s|];
      [|reflexivity]. unfold Pty.is_stale, Pty.STALE_THRESHOLD.
    destruct (Z.ltb_spec (30 * 60 * 1000) (now - Pty.lastActivity s));
      destruct (Z.leb_spec (now - Pty.lastActivity s) 1800000);
      try reflexivity; lia.
  - unfold Pty.cleanupStaleSessions at 1. apply sweep_no_stale.
    apply Forall_forall. intros [k s] Hin. apply elem_of_map_to_list in Hin.
    subst swept. rewrite Hlookup in Hin. simpl.
    destruct (activeSessions !! k) as [s0|]; [|discriminate].
    destruct (Pty.is_stale now s0) eqn:Es; [discriminate|]. congruence.
Qed.

End Registries.

(** ** What splitting keeps *)
Section SplitContent.

Lemma visible_app (a b : jstring) : visible (a ++ b) = visible a ++ visible b.
Proof. apply List.filter_app. Qed.

Lemma visible_trimStart (s : jstring) : visible (trimStart s) = visible s.
Proof.
  induction s as [|c s IH]; [reflexivity|]. simpl.
  destruct (is_js_space c) eqn:E; simpl; rewrite ?E; simpl; [exact IH|reflexivity].
Qed.

Lemma substring_cut (s : jstring) (i : Z) :
  (0 <= i)%Z -> substring s 0 i ++ substring_from s i = s.
Proof.
  intros Hi. unfold substring_from, substring, clamp.
  rewrite Nat2Z.id, Nat.min_id. change (Z.to_nat 0) with 0.
  set (k := Nat.min (Z.to_nat i) (length s)).
  replace (Nat.min 0 (length s)) with 0 by lia.
  replace (Nat.max 0 k - Nat.min 0 k) with k by lia.
  replace (Nat.min 0 k) with 0 by lia.
  replace (Nat.max k (length s) - Nat.min k (length s)) with (length s - k) by lia.
  replace (Nat.min k (length s)) with k by lia.
  rewrite drop_0, (take_ge (drop k s)) by (rewrite length_drop; lia).
  apply take_drop.
Qed.

Lemma substring_0_nonempty (s : jstring) (i : Z) :
  (1 <= i)%Z -> s <> [] -> substring s 0 i <> [].
Proof.
  intros Hi Hs E. apply (f_equal length) in E. revert E.
  unfold substring, clamp. rewrite length_take, length_drop.
  destruct s; [congruence|]. simpl length. lia.
Qed.

Lemma splitLoop_content (maxLength : Z) :
  (1 <= maxLength)%Z ->
  forall (fuel : nat) (remaining : jstring) (chunks out : list jstring),
    splitLoop fuel maxLength remaining chunks = Some out ->
    exists more,
      out = chunks ++ more
      /\ visible (concat more) = visible remaining
      /\ Forall (fun c => c <> []) more.
Proof.
  intros Hm fuel. induction fuel as [|fuel IH]; intros remaining chunks out;
    [discriminate|].
  simpl splitLoop.
  destruct (Z.ltb_spec 0 (Z.of_nat (length remaining))) as [Hpos|Hzero].
  2:{ intros [= <-]. exists []. rewrite app_nil_r.
      destruct remaining; [|simpl in Hzero; lia]. repeat split. constructor. }
  assert (Hne : remaining <> []) by (intros ->; simpl in Hpos; lia).
  destruct (Z.leb_spec (Z.of_nat (length remaining)) maxLength) as [Hle|Hgt].
  { intros [= <-]. exists [remaining]. simpl. rewrite app_nil_r.
    repeat split. constructor; [exact Hne|constructor]. }
  pose proof (splitIndex_range remaining maxLength Hm) as Hidx. simpl in Hidx.
  set (i1 := lastIndexOf remaining NL maxLength) in *.
  set (i2 := if (i1 =? -1)%Z || (2 * i1 <? maxLength)%Z
             then lastIndexOf remaining SP maxLength else i1) in *.
  set (i3 := if (i2 =? -1)%Z || (2 * i2 <? maxLength)%Z
             then maxLength else i2) in *.
  intros Hrun. apply IH in Hrun as (more & -> & Hvis & Hall).
  exists (substring remaining 0 i3 :: more). split_and!.
  - rewrite <- app_assoc. reflexivity.
  - simpl concat. rewrite visible_app, Hvis, visible_trimStart, <- visible_app.
    rewrite substring_cut by lia. reflexivity.
  - constructor; [apply substring_0_nonempty; [lia|exact Hne]|exact Hall].
Qed.

(** X15. Splitting drops nothing but white space and reorders nothing: the
    chunks put end to end read as the content does once white space is left
    out; and no chunk of a content that is not empty is empty. *)
Theorem splitMessage_keeps_visible_text (fuel : nat) (content : jstring)
    (maxLength : Z) (chunks : list jstring) :
  (1 <= maxLength)%Z ->
  splitMessage fuel content maxLength = Some chunks ->
  visible (concat chunks) = visible content
  /\ (content <> [] -> Forall (fun c => c <> []) chunks).
Proof.
  intros Hm. unfold splitMessage.
  destruct (Z.leb_spec (Z.of_nat (length content)) maxLength) as [Hle|Hgt].
  - intros [= <-]. simpl. rewrite app_nil_r. split; [reflexivity|].
    intros Hne. constructor; [exact Hne|constructor].
  - intros Hrun.
    apply (splitLoop_content maxLength Hm) in Hrun as (more & -> & Hvis & Hall).
    split; [exact Hvis|intros _; exact Hall].
Qed.

End SplitContent.

(** ** What the reply shows while the turn runs *)
Section Reply.










(** X18. Toggling the display mode twice gives the user the mode they had,
    the first toggle of a user never seen gives 'clean', and no other
    user's mode changes. *)
Theorem toggleDisplayMode_twice (userDisplayModes : gmap jstring display_mode)
    (userId other : jstring) :
  userId <> other ->
  let once := toggleDisplayMode userDisplayModes userId in
  let twice := toggleDisplayMode once.1 userId in
  once.2 = toggle (getDisplayMode userDisplayModes userId)
  /\ getDisplayMode once.1 userId = once.2
  /\ twice.2 = getDisplayMode userDisplayModes userId
  /\ getDisplayMode twice.1 userId = getDisplayMode userDisplayModes userId
  /\ getDisplayMode twice.1 other = getDisplayMode userDisplayModes other
  /\ (userDisplayModes !! userId = None -> once.2 = CleanMode).
Proof.
  intros Hne once twice. subst once twice.
  unfold toggleDisplayMode, getDisplayMode. cbn [fst snd].
  rewrite !lookup_insert_eq, !lookup_insert_ne by exact Hne. cbn [default].
  destruct (userDisplayModes !! userId) as [[]|]; cbn [default toggle];
    split_and!; try reflexivity; discriminate.
Qed.

End Reply.

(** ** The formatter *)
Section Formatter.
Context `{term : Terminal}.

Lemma squeeze_newlines_elem (x : N) (s : jstring) (run : nat) :
  x ∈ squeeze_newlines run s -> x ∈ s.
Proof.
  revert run. induction s as [|c s IH]; intros run; cbn [squeeze_newlines];
    [auto|].
  destruct (c =? NL)%N; [destruct (2 <=? run)|].
  - intros Hin. right. exact (IH _ Hin).
  - intros Hin. apply elem_of_cons in Hin as [->|Hin]; [left|right; exact (IH _ Hin)].
  - intros Hin. apply elem_of_cons in Hin as [->|Hin]; [left|right; exact (IH _ Hin)].
Qed.

Lemma squeeze_newlines_lead (s : jstring) (run : nat) :
  leading_newlines (squeeze_newlines run s) <= 2 - run.
Proof.
  revert run. induction s as [|c s IH]; intros run; cbn [squeeze_newlines];
    [simpl; lia|].
  destruct (c =? NL)%N eqn:Ec.
  - destruct (Nat.leb_spec 2 run).
    + specialize (IH (S run)). lia.
    + cbn [leading_newlines]. rewrite Ec. specialize (IH (S run)). lia.
  - cbn [leading_newlines]. rewrite Ec. lia.
Qed.

Lemma squeeze_newlines_no_run (s : jstring) (run : nat) (a b : jstring) :
  squeeze_newlines run s <> a ++ [NL; NL; NL] ++ b.
Proof.
  revert run a. induction s as [|c s IH]; intros run a; cbn [squeeze_newlines].
  { destruct a; discriminate. }
  destruct (c =? NL)%N eqn:Ec; [destruct (Nat.leb_spec 2 run)|].
  - apply IH.
  - destruct a as [|x a]; simpl.
    + intros [= _ E]. pose proof (squeeze_newlines_lead s (S run)) as Hlead.
      rewrite E in Hlead. simpl in Hlead. lia.
    + intros [= _ E]. exact (IH _ _ E).
  - destruct a as [|x a]; simpl.
    + intros [= -> _]. discriminate.
    + intros [= _ E]. exact (IH _ _ E).
Qed.

Lemma replace_cr_no_cr (s : jstring) : CR ∉ replace_cr s.
Proof.
  unfold replace_cr. induction s as [|c s IH]; simpl.
  - apply not_elem_of_nil.
  - apply not_elem_of_cons. split; [|exact IH].
    destruct (N.eqb_spec c CR) as [->|Hc]; [discriminate|congruence].
Qed.

Lemma trimStart_suffix (s : jstring) : exists a, s = a ++ trimStart s.
Proof.
  induction s as [|c s [a IH]]; [exists []; reflexivity|]. simpl.
  destruct (is_js_space c); [|exists []; reflexivity].
  exists (c :: a). simpl. f_equal. exact IH.
Qed.

Lemma trimEnd_prefix (s : jstring) : exists b, s = trimEnd s ++ b.
Proof.
  unfold trimEnd. destruct (trimStart_suffix (rev s)) as [a Ha].
  exists (rev a). rewrite <- rev_app_distr, <- Ha, rev_involutive. reflexivity.
Qed.

Lemma trim_infix (s : jstring) : exists a b, s = a ++ trim s ++ b.
Proof.
  unfold trim. destruct (trimStart_suffix s) as [a Ha].
  destruct (trimEnd_prefix (trimStart s)) as [b Hb].
  exists a, b. rewrite <- Hb. exact Ha.
Qed.

Lemma trimStart_head (s : jstring) :
  match trimStart s with
  | c :: _ => is_js_space c = false
  | [] => True
  end.
Proof.
  induction s as [|c s IH]; simpl; [exact I|].
  destruct (is_js_space c) eqn:E; [exact IH|exact E].
Qed.

Lemma trimStart_id (s : jstring) :
  match s with c :: _ => is_js_space c = false | [] => True end ->
  trimStart s = s.
Proof. destruct s as [|c s]; simpl; [reflexivity|]. intros ->. reflexivity. Qed.

Lemma trimStart_snoc (l : jstring) (c : N) :
  is_js_space c = false -> exists u, trimStart (l ++ [c]) = u ++ [c].
Proof.
  intros Hc. induction l as [|x l [u IH]]; simpl.
  - rewrite Hc. exists []. reflexivity.
  - destruct (is_js_space x); [exists u; exact IH|exists (x :: l); reflexivity].
Qed.

Lemma trim_trimmed (s : jstring) :
  trimStart (trim s) = trim s /\ trimEnd (trim s) = trim s.
Proof.
  unfold trim, trimEnd. split.
  - apply trimStart_id. pose proof (trimStart_head s) as Hhead.
    destruct (trimStart s) as [|c t]; [exact I|].
    simpl rev. destruct (trimStart_snoc (rev t) c Hhead) as [u ->].
    rewrite rev_app_distr. simpl. exact Hhead.
  - rewrite rev_involutive. f_equal. apply trimStart_id, trimStart_head.
Qed.

(** X19. What [cleanOutput] returns holds no carriage return, no three
    newlines in a row, and no white space at either end, whatever the
    text and whatever [stripAnsi] does to it. *)
Theorem cleanOutput_is_clean (text : jstring) :
  let out := cleanOutput text in
  (CR ∉ out)
  /\ (forall a b, out <> a ++ [NL; NL; NL] ++ b)
  /\ trimStart out = out
  /\ trimEnd out = out.
Proof.
  unfold cleanOutput. destruct (negb (truthy (JStr text))).
  { split_and!; try reflexivity; [apply not_elem_of_nil|].
    intros [|? ?] ?; discriminate. }
  set (s := squeeze_newlines 0 (replace_cr (replace_crlf (stripAnsi text)))).
  destruct (trim_infix s) as (a & b & Hs).
  destruct (trim_trimmed s) as [Hstart Hend].
  split_and!; [| |exact Hstart|exact Hend].
  - intros Hin.
    apply (replace_cr_no_cr (replace_crlf (stripAnsi text))).
    apply (squeeze_newlines_elem _ _ 0). fold s. rewrite Hs.
    rewrite !elem_of_app. tauto.
  - intros x y E. rewrite E in Hs.
    apply (squeeze_newlines_no_run (replace_cr (replace_crlf (stripAnsi text)))
             0 (a ++ x) (y ++ b)).
    fold s. rewrite Hs at 1. rewrite <- !app_assoc. reflexivity.
Qed.

(** X20. With a tool name of at most 1971 units, what [formatToolOutput]
    returns fits a Discord message of 2000 units, whatever the output. *)
Theorem formatToolOutput_fits (toolName output : jstring) :
  length toolName <= 1971 ->
  length (formatToolOutput toolName output) <= 2000.
Proof.
  intros Hname. unfold formatToolOutput, MAX_MESSAGE_LENGTH, CODE_BLOCK_OVERHEAD.
  assert (Hstars : length (lit "**") = 2) by reflexivity.
  assert (Hticks : length (lit "```") = 3) by reflexivity.
  assert (Hcut : length (lit "... (truncated)") = 15) by reflexivity.
  destruct (Z.ltb_spec (2000 - 8 - Z.of_nat (length toolName) - 10)
              (Z.of_nat (length (cleanOutput output)))) as [Hlong|Hshort].
  - pose proof (substring_0_length (cleanOutput output)
                  (2000 - 8 - Z.of_nat (length toolName) - 10 - 20)) as Hsub.
    rewrite !length_app, Hstars, Hticks, Hcut. simpl length. lia.
  - rewrite !length_app, Hstars, Hticks. simpl length. lia.
Qed.

End Formatter.

(** ** From one turn to the next *)
Section Resume.
Context `{rt : Runtime}.

Lemma split_terminated (sep : N) (line : jstring) :
  sep ∉ line -> split sep (line ++ [sep]) = [line; []].
Proof.
  induction line as [|c line IH]; intros Hnot.
  - simpl. rewrite N.eqb_refl. reflexivity.
  - apply not_elem_of_cons in Hnot as [Hc Hline]. simpl.
    destruct (N.eqb_spec c sep) as [->|_]; [contradiction|].
    rewrite (IH Hline). reflexivity.
Qed.

Lemma not_elem_of_check (c : N) (s : jstring) :
  forallb (fun x => negb (x =? c)%N) s = true -> c ∉ s.
Proof.
  induction s as [|x s IH]; simpl; [intros _; apply not_elem_of_nil|].
  intros H. apply andb_true_iff in H as [Hx Hs].
  apply not_elem_of_cons. split; [|exact (IH Hs)].
  intros ->. rewrite N.eqb_refl in Hx. discriminate.
Qed.

Lemma spawn_args_resume (w : World) :
  truthy (sessionId (session w)) = true ->
  exists args,
    spawn_args w = args ++ [JStr (lit "--resume"); sessionId (session w)].
Proof.
  intros H. unfold spawn_args. rewrite H. eexists. rewrite !app_assoc. reflexivity.
Qed.

(** X21. The identity a turn's result record brings is the one the turn
    resolves with and the one the next turn resumes: after a turn whose
    child wrote one result record with an identity token and closed, the
    next send is accepted and spawns its child with '--resume' and that
    token as the last two arguments. *)
Theorem result_identity_is_resumed (w0 w1 : World) (message message' : jsval)
    (p : nat) (data : list byte) (line : jstring) (d : jsval) (code : Z) :
  send w0 message = (w1, Pending p) ->
  toString data = line ++ [NL] ->
  NL ∉ line ->
  trim line <> [] ->
  JSON_parse (trim line) = Some d ->
  js_is (prop d "type") "result" = true ->
  truthy (prop d "session_id") = true ->
  exists w2 args,
    run w1 [In_stdout p data; In_close code; In_send message']
    = Some (w2, [Pending (S p)])
    /\ settled w2
       = settled w0
         ++ [(p, Resolved (js_or (prop d "result") (JStr []))
                   (prop d "session_id"))]
    /\ spawned w2
       = spawned w1
         ++ [{| sp_pid := S p;
                sp_args := args ++ [JStr (lit "--resume"); prop d "session_id"];
                sp_cwd := workingDir (session w0);
                sp_stdin := message' |}].
Proof.
  intros Hsend Hdata Hnl Hline Hparse Hres Hid.
  destruct (isProcessing (session w0)) eqn:Hi.
  { rewrite (send_busy w0 message Hi) in Hsend. discriminate. }
  unfold send in Hsend. rewrite Hi in Hsend. injection Hsend as <- <-.
  cbn [run step]. unfold on_stdout. cbn [buffers]. rewrite lookup_insert_eq.
  unfold feed. rewrite app_nil_l, Hdata, (split_terminated _ _ Hnl).
  cbn [removelast handle_lines List.last].
  assert (Ht : truthy (JStr (trim line)) = true).
  { destruct (trim line); [congruence|reflexivity]. }
  rewrite Ht. unfold handleJsonLine. rewrite Hparse.
  rewrite (handle_data_result d _ Hres), Hid.
  cbn [fmap option_fmap option_map hs_this hs_emitted].
  match goal with |- context [on_close ?w code] => set (wa := w) end.
  assert (Hp : pendingResolve (session wa) = Some (next_handle w0)).
  { subst wa. cbn. destruct (truthy (prop d "result")); reflexivity. }
  set (wc := on_close wa code).
  assert (Hc : isProcessing (session wc) = false
     /\ sessionId (session wc) = prop d "session_id"
     /\ workingDir (session wc) = workingDir (session w0)
     /\ next_handle wc = S (next_handle w0)
     /\ settled wc
        = settled w0
          ++ [(next_handle w0,
               Resolved (js_or (prop d "result") (JStr []))
                 (prop d "session_id"))]
     /\ spawned wc = spawned wa).
  { subst wc. unfold on_close, clearTimeout, js_or. 
    destruct (truthy (prop d "result")); cbn; split_and!; reflexivity. }
  destruct Hc as (Hc1 & Hc2 & Hc3 & Hc4 & Hc5 & Hc6).
  destruct (spawn_args_resume wc) as [args Hargs]; [rewrite Hc2; exact Hid|].
  unfold send. rewrite Hc1, Hargs, Hc2, Hc3, Hc4, Hc6.
  eexists _, args. cbn [app settled spawned].
  split_and!; [reflexivity|exact Hc5|reflexivity].
Qed.

End Resume.

(** ** The children of a session *)
Section Children.
Context `{rt : Runtime}.

Lemma split_last_no_separator (sep : N) (s : jstring) :
  sep ∉ List.last (split sep s) [].
Proof.
  pose proof (split_parts sep s) as Hparts.
  pose proof (split_nonempty sep s) as Hne.
  induction (split sep s) as [|l ls IH]; [congruence|].
  inversion Hparts as [|? ? Hl Hls]; subst.
  destruct ls as [|l' ls]; [exact Hl|].
  change (List.last (l :: l' :: ls) []) with (List.last (l' :: ls) []).
  apply IH; [exact Hls|discriminate].
Qed.

Ltac same_buffers :=
  cbn;
  repeat (match goal with
          | |- context [match ?x with _ => _ end] => destruct x
          end; cbn);
  auto.

Lemma step_buffers (w w' : World) (i : input) (rs : list send_result) :
  step w i = Some (w', rs) ->
  buffers_hold_no_newline w -> buffers_hold_no_newline w'.
Proof.
  intros Hstep Hw. destruct i as [m|pid data|data|code|err|t|]; cbn [step] in Hstep.
  - unfold send in Hstep. destruct (isProcessing (session w));
      injection Hstep as <- _; [exact Hw|].
    intros q b. cbn [buffers]. intros Hq.
    apply lookup_insert_Some in Hq as [[_ <-]|[_ Hq]];
      [apply not_elem_of_nil|exact (Hw q b Hq)].
  - unfold on_stdout in Hstep.
    destruct (buffers w !! pid) as [buffer|] eqn:Eb;
      [|cbn in Hstep; injection Hstep as <- _; exact Hw].
    unfold feed in Hstep.
    destruct (handle_lines _ _) as [[s' evs]|]; [|discriminate].
    cbn [fmap option_fmap option_map] in Hstep.
    injection Hstep as <- _. intros q b. cbn [buffers with_emitted with_buffer].
    intros Hq. apply lookup_insert_Some in Hq as [[_ <-]|[_ Hq]];
      [apply split_last_no_separator|exact (Hw q b Hq)].
  - injection Hstep as <- _. exact Hw.
  - injection Hstep as <- _. intros q b Hq. apply (Hw q b).
    revert Hq. unfold on_close, clearTimeout. same_buffers.
  - injection Hstep as <- _. intros q b Hq. apply (Hw q b).
    revert Hq. unfold on_error, clearTimeout. same_buffers.
  - injection Hstep as <- _. intros q b Hq. apply (Hw q b).
    revert Hq. unfold on_timeout. same_buffers.
  - injection Hstep as <- _. intros q b Hq. apply (Hw q b).
    revert Hq. unfold kill, clearTimeout. same_buffers.
Qed.

(** X22. Whatever has happened to a session, the partial line it keeps for
    a child holds no newline: every complete line was handed to the decoder
    with the chunk that completed it. *)
Theorem partial_line_holds_no_newline (options : session_options)
    (cwd : jstring) (model : jsval) (inputs : list input) (w : World)
    (rs : list send_result) (pid : nat) (buffer : jstring) :
  run (new_World (new_ClaudeSession cwd options) model) inputs = Some (w, rs) ->
  buffers w !! pid = Some buffer ->
  NL ∉ buffer.
Proof.
  intros Hrun. revert pid buffer. change (buffers_hold_no_newline w).
  assert (Hstart : buffers_hold_no_newline
                     (new_World (new_ClaudeSession cwd options) model)).
  { intros q b Hq. cbn in Hq. rewrite lookup_empty in Hq. discriminate. }
  revert Hrun Hstart. generalize (new_World (new_ClaudeSession cwd options) model).
  revert rs. induction inputs as [|i inputs IH]; intros rs w0; cbn [run].
  - intros [= <- _] Hw0. exact Hw0.
  - destruct (step w0 i) as [[w1 r1]|] eqn:Estep; [|discriminate].
    destruct (run w1 inputs) as [[w2 r2]|] eqn:Erun; [|discriminate].
    intros [= <- _] Hw0.
    exact (IH _ _ Erun (step_buffers _ _ _ _ Estep Hw0)).
Qed.

(** X23. The close handler does not ask which child closed. When a turn is
    killed and the next one sent before the killed child's close arrives,
    that close resolves the new turn at once, with empty output, frees the
    session and clears the new turn's timer, while the new child runs on. *)
Theorem stale_close_resolves_next_turn (w0 w1 : World)
    (message message' : jsval) (p : nat) (code : Z) :
  send w0 message = (w1, Pending p) ->
  exists w2,
    run w1 [In_kill; In_send message'; In_close code]
    = Some (w2, [Pending (S p)])
    /\ settled w2
       = settled w0 ++ [(S p, Resolved (JStr []) (sessionId (session w0)))]
    /\ isProcessing (session w2) = false
    /\ (S p ∉ timers w2)
    /\ buffers w2 !! S p = Some []
    /\ signals w2 = signals w0 ++ [p].
Proof.
  intros Hsend.
  destruct (isProcessing (session w0)) eqn:Hi.
  { rewrite (send_busy w0 message Hi) in Hsend. discriminate. }
  unfold send in Hsend. rewrite Hi in Hsend. injection Hsend as <- <-.
  set (wa := {| session := _ |}).
  assert (Hk : exists wk, kill wa = wk /\ isProcessing (session wk) = false
     /\ sessionId (session wk) = sessionId (session w0)
     /\ next_handle wk = S (next_handle w0)
     /\ settled wk = settled w0
     /\ signals wk = signals w0 ++ [next_handle w0]).
  { eexists. split; [reflexivity|]. unfold kill, clearTimeout. simpl.
    split_and!; reflexivity. }
  destruct Hk as (wk & Hkill & Hk1 & Hk2 & Hk3 & Hk4 & Hk5).
  cbn [run step]. rewrite Hkill. clearbody wa. clear Hkill wa.
  unfold send. rewrite Hk1, Hk3.
  eexists. split; [reflexivity|].
  unfold on_close, clearTimeout. simpl. rewrite Hk2, Hk4, Hk5.
  split_and!; try reflexivity.
  - rewrite elem_of_difference, elem_of_singleton. tauto.
  - apply lookup_insert_eq.
Qed.

End Children.

(** ** The properties at work *)
Section Instances.

Lemma no_promise_settled_twice_witness :
  exists w rs,
    run (rt := node) sample_world
      [In_send (JStr (lit "one")); In_stdout 0 text_chunk; In_timeout 0;
       In_close 1; In_error (lit "EPIPE")]
    = Some (w, rs)
    /\ length (settlements_of 0 w) <= 1.
Proof.
  eexists _, _. split; [vm_compute; reflexivity|].
  exact (no_promise_settled_twice (rt := node) no_options (lit "/work") JNull
           [In_send (JStr (lit "one")); In_stdout 0 text_chunk; In_timeout 0;
            In_close 1; In_error (lit "EPIPE")] _ _ 0
           ltac:(vm_compute; reflexivity)).
Defined.

Lemma killed_turn_is_never_settled_witness :
  exists w0 rs0 w1 w2 rs,
    run (rt := node) sample_world [] = Some (w0, rs0)
    /\ send w0 (JStr (lit "one")) = (w1, Pending 0)
    /\ run (rt := node) w1
         [In_kill; In_send (JStr (lit "two")); In_close 143; In_close 0]
       = Some (w2, rs)
    /\ (exists rs', rs = Pending 1 :: rs')
    /\ settlements_of 0 w2 = [].
Proof.
  eexists _, _, _, _, _.
  split; [vm_compute; reflexivity|]. split; [vm_compute; reflexivity|].
  split; [vm_compute; reflexivity|].
  exact (killed_turn_is_never_settled (rt := node) no_options (lit "/work")
           JNull [] [In_close 143; In_close 0] _ _ _ _ _
           (JStr (lit "one")) (JStr (lit "two")) 0
           ltac:(vm_compute; reflexivity) ltac:(vm_compute; reflexivity)
           ltac:(vm_compute; reflexivity)).
Defined.

Lemma timed_out_session_stays_busy_witness :
  isProcessing (session sample_world) = false
  /\ let w2 := on_timeout (send sample_world (JStr (lit "one"))).1 0 in
     settled w2 = [(0, Rejected ResponseTimeout)]
     /\ send w2 (JStr (lit "two")) = (w2, RejectedAtOnce AlreadyProcessing).
Proof.
  split; [reflexivity|].
  destruct (timed_out_session_stays_busy sample_world (JStr (lit "one"))
              (JStr (lit "two")) 0 eq_refl) as (H1 & _ & H3 & _).
  split; [exact H1|exact H3].
Defined.

Lemma killed_turn_resolves_on_close_witness :
  let w := (send sample_world (JStr (lit "one"))).1 in
  pendingResolve (session w) = Some 0 /\ process (session w) = Some 0
  /\ settled (kill w) = settled w
  /\ settled (on_close (kill w) 143)
     = settled w
       ++ [(0, Resolved (currentOutput (session w)) (sessionId (session w)))].
Proof.
  intros w. split; [reflexivity|]. split; [reflexivity|].
  destruct (killed_turn_resolves_on_close w 0 0 143 eq_refl eq_refl)
    as (H1 & _ & _ & H4).
  split; [exact H1|exact H4].
Defined.

Lemma child_output_never_ends_a_turn_witness :
  let w := (send sample_world (JStr (lit "one"))).1 in
  let inputs := [In_stdout 0 text_chunk; In_stderr [x21]; In_stdout 0 result_chunk] in
  exists w' rs,
    forallb is_output inputs = true
    /\ run (rt := node) w inputs = Some (w', rs)
    /\ isProcessing (session w') = true
    /\ settled w' = [].
Proof.
  intros w inputs. eexists _, _. split; [reflexivity|].
  split; [vm_compute; reflexivity|].
  destruct (child_output_never_ends_a_turn (rt := node) w _ inputs _ eq_refl
              ltac:(vm_compute; reflexivity)) as (H1 & _ & _ & _ & _ & H6 & _).
  split; [exact H1|exact H6].
Defined.

Lemma unterminated_record_is_dropped_witness :
  let data := json_bytes "{'type':'result','result':'done'}" in
  exists w1 w2,
    send sample_world (JStr (lit "one")) = (w1, Pending 0)
    /\ (NL ∉ toString data)
    /\ run (rt := node) w1 [In_stdout 0 data; In_close 0] = Some (w2, [])
    /\ emitted w2 = []
    /\ settled w2 = [(0, Resolved (JStr []) JNull)].
Proof.
  intros data.
  assert (Hnl : NL ∉ toString data)
    by (apply not_elem_of_check; vm_compute; reflexivity).
  eexists _.
  destruct (unterminated_record_is_dropped (rt := node) sample_world _
              (JStr (lit "one")) 0 data 0 ltac:(vm_compute; reflexivity) Hnl)
    as (w2 & Hrun & Hev & _ & Hset).
  exists w2. split; [vm_compute; reflexivity|]. split; [exact Hnl|].
  split; [exact Hrun|]. split; [exact Hev|exact Hset].
Defined.

Lemma ascii_stream_chunking_witness :
  let w := (send sample_world (JStr (lit "one"))).1 in
  Forall (Forall is_ascii) [[x7b; x7d]; [x0a; x7b]; [x7d; x0a]]
  /\ run (rt := node) w
       (map (In_stdout 0) [[x7b; x7d]; [x0a; x7b]; [x7d; x0a]])
     = run (rt := node) w [In_stdout 0 [x7b; x7d; x0a; x7b; x7d; x0a]].
Proof.
  intros w.
  assert (Hascii : Forall (Forall is_ascii) [[x7b; x7d]; [x0a; x7b]; [x7d; x0a]])
    by (repeat first [apply List.Forall_nil|apply List.Forall_cons];
        vm_compute; discriminate).
  split; [exact Hascii|].
  exact (ascii_stream_chunking (rt := node) w 0 _ _ Hascii).
Defined.

Lemma identity_announced_at_most_once_witness :
  let s := new_ClaudeSession [] no_options in
  exists s' evs,
    handle_lines (rt := node) s [init_line; assistant_line; result_line]
    = Some (s', evs)
    /\ announcements evs <= 1
    /\ (truthy (sessionId s) = true -> announcements evs = 0).
Proof.
  intros s. eexists _, _. split; [vm_compute; reflexivity|].
  exact (identity_announced_at_most_once (rt := node) s _
           [init_line; assistant_line; result_line] _
           ltac:(vm_compute; reflexivity)).
Defined.

Lemma shortenPath_keeps_last_two_witness :
  let p := lit "C:\work\bot\src\utils\formatter.js" in
  let st := {| hs_this := new_ClaudeSession [] no_options; hs_emitted := [] |} in
  p <> []
  /\ if 2 <=? separators p then
       exists front a b,
         normalise_separators p = front ++ [SLASH] ++ a ++ [SLASH] ++ b
         /\ (SLASH ∉ a ++ b) /\ (BACKSLASH ∉ a ++ b)
         /\ shortenPath (JStr p) st
            = (Normal (lit ".../" ++ a ++ [SLASH] ++ b), st)
     else shortenPath (JStr p) st = (Normal p, st).
Proof.
  intros p st.
  assert (Hp : p <> []) by (vm_compute; discriminate).
  split; [exact Hp|]. exact (shortenPath_keeps_last_two p st Hp).
Defined.

Lemma bash_status_is_bounded_witness :
  let command := lit "find . -name node_modules -prune -o -type f -print" in
  let block :=
    JObj [(lit "type", JStr (lit "tool_use")); (lit "name", JStr (lit "Bash"));
          (lit "input", JObj [(lit "command", JStr command)])] in
  let st := {| hs_this := new_ClaudeSession [] no_options; hs_emitted := [] |} in
  exists status,
    handle_tool_use block st
    = (Normal tt,
       {| hs_this := hs_this st;
          hs_emitted := hs_emitted st
            ++ [E_tool_use (JStr (lit "Bash")) (prop block "input") (JStr status);
                E_status (JStr status)] |})
    /\ length status <= 42
    /\ status = lit "Running: " ++ take 30 command
                ++ (if 30 <? length command then lit "..." else []).
Proof.
  intros command block st.
  apply (bash_status_is_bounded block command st);
    [vm_compute; reflexivity|vm_compute; reflexivity|vm_compute; discriminate].
Defined.

Lemma getOrCreateSession_round_trip_witness :
  let options :=
    {| opt_sessionId := JStr (lit "abc"); opt_workingDir := JUndefined;
       opt_timeout := None |} in
  let created :=
    getOrCreateSession ∅ (lit "/work") (lit "111") (lit "222") options in
  getOrCreateSession ∅ (lit "/work") (lit "111") (lit "222") options
  = (created.1, created.2)
  /\ getSession created.1 (lit "111") (lit "222") = Some created.2
  /\ getOrCreateSession created.1 (lit "/tmp") (lit "111") (lit "222") no_options
     = (created.1, created.2)
  /\ sessionId created.2 = JStr (lit "abc").
Proof.
  intros options created.
  assert (Hcreated :
    getOrCreateSession ∅ (lit "/work") (lit "111") (lit "222") options
    = (created.1, created.2)) by reflexivity.
  split; [exact Hcreated|].
  destruct (getOrCreateSession_round_trip _ _ (lit "/work") (lit "/tmp")
              (lit "111") (lit "222") options _ Hcreated)
    as (H1 & H2 & H3 & _).
  split; [exact H1|]. split; [exact H2|]. exact (H3 eq_refl).
Defined.

Lemma removeSession_forgets_witness :
  let sessions :=
    (getOrCreateSession ∅ (lit "/work") (lit "111") (lit "222") no_options).1 in
  exists sessions' killed,
    removeSession sessions (lit "111") (lit "222") = (sessions', killed, true)
    /\ getSession sessions' (lit "111") (lit "222") = None
    /\ removeSession sessions' (lit "111") (lit "222") = (sessions', None, false).
Proof.
  intros sessions. eexists _, _. split; [vm_compute; reflexivity|].
  destruct (removeSession_forgets sessions _ (lit "/work") (lit "111")
              (lit "222") _ true ltac:(vm_compute; reflexivity))
    as (H1 & _ & _ & H4 & _).
  split; [exact H1|exact H4].
Defined.

Lemma pty_getOrCreateSession_running_witness :
  let created :=
    Pty.getOrCreateSession ∅ (lit "/work") 1000 7 (lit "111") (lit "222")
      no_options in
  Pty.getOrCreateSession ∅ (lit "/work") 1000 7 (lit "111") (lit "222")
    no_options
  = (created.1, created.2)
  /\ Pty.isRunning created.2 = true
  /\ Pty.getSession created.1 (lit "111") (lit "222") = Some created.2
  /\ Pty.getOrCreateSession created.1 (lit "/tmp") 2000 8 (lit "111")
       (lit "222") no_options
     = (created.1, created.2).
Proof.
  intros created.
  assert (Hcreated :
    Pty.getOrCreateSession ∅ (lit "/work") 1000 7 (lit "111") (lit "222")
      no_options
    = (created.1, created.2)) by reflexivity.
  split; [exact Hcreated|].
  destruct (pty_getOrCreateSession_running _ _ (lit "/work") (lit "/tmp")
              (lit "111") (lit "222") 1000 2000 7 8 no_options no_options _
              Hcreated)
    as (H1 & H2 & H3 & _).
  split; [exact H1|]. split; [exact H2|exact H3].
Defined.

Lemma splitMessage_keeps_visible_text_witness :
  exists chunks,
    (1 <= 11)%Z
    /\ splitMessage 30 (lit "hello brave new world") 11 = Some chunks
    /\ visible (concat chunks) = visible (lit "hello brave new world")
    /\ (lit "hello brave new world" <> [] -> Forall (fun c => c <> []) chunks).
Proof.
  eexists. split; [lia|]. split; [vm_compute; reflexivity|].
  apply (splitMessage_keeps_visible_text 30 (lit "hello brave new world") 11);
    [lia|vm_compute; reflexivity].
Defined.


Lemma toggleDisplayMode_twice_witness :
  lit "alice" <> lit "bob"
  /\ (toggleDisplayMode ∅ (lit "alice")).2 = CleanMode
  /\ getDisplayMode
       (toggleDisplayMode (toggleDisplayMode ∅ (lit "alice")).1 (lit "alice")).1
       (lit "bob")
     = getDisplayMode ∅ (lit "bob").
Proof.
  assert (Hne : lit "alice" <> lit "bob") by (vm_compute; discriminate).
  split; [exact Hne|].
  destruct (toggleDisplayMode_twice ∅ (lit "alice") (lit "bob") Hne)
    as (_ & _ & _ & _ & H5 & H6).
  split; [exact (H6 eq_refl)|exact H5].
Defined.

Lemma formatToolOutput_fits_witness :
  length (lit "Read") <= 1971
  /\ length (formatToolOutput (term := plain_text) (lit "Read")
               (lit "line one")) <= 2000.
Proof.
  assert (Hname : length (lit "Read") <= 1971) by (vm_compute; lia).
  split; [exact Hname|].
  exact (formatToolOutput_fits (term := plain_text) (lit "Read")
           (lit "line one") Hname).
Defined.

Lemma result_identity_is_resumed_witness :
  let data := json_bytes resumable_line ++ [x0a] in
  exists w1 w2 args,
    send sample_world (JStr (lit "one")) = (w1, Pending 0)
    /\ run (rt := node) w1
         [In_stdout 0 data; In_close 0; In_send (JStr (lit "two"))]
       = Some (w2, [Pending 1])
    /\ settled w2 = [(0, Resolved (JStr (lit "done")) (JStr (lit "third")))]
    /\ spawned w2
       = spawned w1
         ++ [{| sp_pid := 1;
                sp_args := args ++ [JStr (lit "--resume"); JStr (lit "third")];
                sp_cwd := JStr (lit "/work");
                sp_stdin := JStr (lit "two") |}].
Proof.
  intros data. eexists _.
  destruct (result_identity_is_resumed (rt := node) sample_world _
              (JStr (lit "one")) (JStr (lit "two")) 0 data (json resumable_line)
              _ 0
              ltac:(vm_compute; reflexivity) ltac:(vm_compute; reflexivity)
              ltac:(apply not_elem_of_check; vm_compute; reflexivity)
              ltac:(vm_compute; discriminate) ltac:(vm_compute; reflexivity)
              ltac:(vm_compute; reflexivity) ltac:(vm_compute; reflexivity))
    as (w2 & args & Hrun & Hset & Hspawn).
  exists w2, args. split; [vm_compute; reflexivity|].
  split; [exact Hrun|]. split; [exact Hset|exact Hspawn].
Defined.

Lemma partial_line_holds_no_newline_witness :
  exists w rs,
    run (rt := node) sample_world
      [In_send (JStr (lit "one")); In_stdout 0 accent_head;
       In_stdout 0 text_chunk; In_stdout 0 [x7b; x0a; x7b]]
    = Some (w, rs)
    /\ buffers w !! 0 = Some [123%N]
    /\ (NL ∉ [123%N]).
Proof.
  eexists _, _. split; [vm_compute; reflexivity|].
  split; [vm_compute; reflexivity|].
  exact (partial_line_holds_no_newline (rt := node) no_options (lit "/work")
           JNull
           [In_send (JStr (lit "one")); In_stdout 0 accent_head;
            In_stdout 0 text_chunk; In_stdout 0 [x7b; x0a; x7b]] _ _ 0 _
           ltac:(vm_compute; reflexivity) ltac:(vm_compute; reflexivity)).
Defined.

Lemma stale_close_resolves_next_turn_witness :
  exists w1 w2,
    send sample_world (JStr (lit "one")) = (w1, Pending 0)
    /\ run (rt := node) w1 [In_kill; In_send (JStr (lit "two")); In_close 143]
       = Some (w2, [Pending 1])
    /\ settled w2 = [(1, Resolved (JStr []) JNull)]
    /\ isProcessing (session w2) = false.
Proof.
  eexists _.
  destruct (stale_close_resolves_next_turn (rt := node) sample_world _
              (JStr (lit "one")) (JStr (lit "two")) 0 143
              ltac:(vm_compute; reflexivity))
    as (w2 & Hrun & Hset & Hidle & _).
  exists w2. split; [vm_compute; reflexivity|].
  split; [exact Hrun|]. split; [exact Hset|exact Hidle].
Defined.

End Instances.
